(** * Companies directory: view model (frontend/src/App.js) and
      cache service (backend/server.js)

    A shallow embedding of the two JavaScript sources.

    Conventions of the embedding.
    - A JavaScript string is a [string]: a sequence of code units, here the
      code units 0..255 (the Latin-1 range), on which [toLowerCase] below is
      exactly [String.prototype.toLowerCase].
    - A JavaScript number that holds an integer (ids, head counts, years,
      page numbers, millisecond clocks) is a [Z]; a number that may hold a
      fraction ([Math.random()], the quotient inside [Math.ceil]) is a [Q].
    - React state is a record; each event handler is a function from the
      state before the event to the state after it.
    - The server's module-level variables are a record threaded through a
      state-and-exception monad; the outside world (the registry's replies
      and their latency, the random draws) is a read-only environment. *)

From Stdlib Require Import List ZArith Lia Bool String Ascii.
From Stdlib Require Import QArith Qround Permutation Sorted.
From Stdlib Require Import OrdersEx.
From Stdlib Require Import DecimalString DecimalNat.
Import ListNotations.

Open Scope string_scope.
Open Scope list_scope.
Open Scope Z_scope.

(** ** Data model *)

(** The JSON shape shared by both sources:
    [{ id, name, location, industry, employees, founded, ticker }]. *)
Record Company := mkCompany {
  id : Z;
  name : string;
  location : string;
  industry : string;
  employees : Z;
  founded : Z;
  ticker : string
}.

(** ** JavaScript string primitives *)

Module JS.

(** [String.prototype.toLowerCase] on one Latin-1 code unit: A..Z and the
    accented capitals U+00C0..U+00DE (U+00D7, the multiplication sign,
    apart) move up by 32; every other code unit is its own lower case. *)
Definition lower_unit (c : ascii) : ascii :=
  let n := nat_of_ascii c in
  if ((65 <=? n) && (n <=? 90))%nat then ascii_of_nat (n + 32)
  else if ((192 <=? n) && (n <=? 222) && negb (n =? 215))%nat
       then ascii_of_nat (n + 32)
  else c.

Fixpoint toLowerCase (s : string) : string :=
  match s with
  | EmptyString => EmptyString
  | String c s' => String (lower_unit c) (toLowerCase s')
  end.

(** [s.startsWith(t)], the test [includes] makes at each position. *)
Fixpoint startsWith (s t : string) {struct t} : bool :=
  match t, s with
  | EmptyString, _ => true
  | String _ _, EmptyString => false
  | String b t', String a s' => Ascii.eqb a b && startsWith s' t'
  end.

(** [s.includes(t)]: [t] occurs in [s] at some position. *)
Fixpoint includes (s t : string) : bool :=
  startsWith s t ||
  match s with
  | EmptyString => false
  | String _ s' => includes s' t
  end.

(** Truthiness of a string: only the empty string is falsy. *)
Definition truthy_string (s : string) : bool :=
  negb (s =? "")%string.

(** [x > y] and [x < y] on two strings: lexicographic on code units. *)
Definition str_gt (x y : string) : bool := String.ltb y x.
Definition str_lt (x y : string) : bool := String.ltb x y.

(** [Array.prototype.slice(start, end)]: a negative bound counts from the
    end, both bounds are clamped to [0, length], and an empty or inverted
    range gives the empty array. *)
Definition slice {A : Type} (l : list A) (start stop : Z) : list A :=
  let len := Z.of_nat (List.length l) in
  let k := if start <? 0 then Z.max (len + start) 0 else Z.min start len in
  let final := if stop <? 0 then Z.max (len + stop) 0 else Z.min stop len in
  firstn (Z.to_nat (final - k)) (skipn (Z.to_nat k) l).

(** [Array.prototype.sort(cmp)].  The engine's algorithm is not part of the
    source; it is modelled as the insertion sort engines run on short
    arrays: elements are taken left to right, and each is placed in the
    already sorted prefix before the first element [x] for which
    [cmp pivot x < 0].  Only the sign of [cmp] is consulted. *)
Fixpoint insert {A : Type} (cmp : A -> A -> Z) (pivot : A) (sorted : list A)
  : list A :=
  match sorted with
  | [] => [pivot]
  | x :: rest =>
      if cmp pivot x <? 0 then pivot :: x :: rest
      else x :: insert cmp pivot rest
  end.

Definition sort {A : Type} (cmp : A -> A -> Z) (l : list A) : list A :=
  fold_left (fun acc x => insert cmp x acc) l [].

(** [[...new Set(xs)]]: the values of [xs] in the order of their first
    appearance, each once. *)
Definition spread_Set (xs : list string) : list string :=
  fold_left (fun seen x =>
               if existsb (String.eqb x) seen then seen else seen ++ [x])
            xs [].

(** The comparison [sort()] makes between two strings when it is given no
    comparator: -1 when the first is the smaller, 1 when the second is, and
    0 when neither. *)
Definition default_cmp (x y : string) : Z :=
  if str_lt x y then -1 else if str_lt y x then 1 else 0.

(** A length inside a template literal: its decimal digits. *)
Definition toString (n : nat) : string :=
  NilEmpty.string_of_uint (Nat.to_uint n).

End JS.

(** ** View model: frontend/src/App.js *)

(** The five column names [handleSort] is called with. *)
Inductive SortKey := K_name | K_location | K_industry | K_employees | K_founded.

Inductive SortOrder := asc | desc.

(** The [useState] cells the view model reads. *)
Record ViewState := mkViewState {
  searchTerm : string;
  locationFilter : string;
  industryFilter : string;
  sortBy : SortKey;
  sortOrder : SortOrder;
  currentPage : Z
}.

Definition itemsPerPage : Z := 6.

(** The callback of [companies.filter]. *)
Definition matchesSearch (vs : ViewState) (company : Company) : bool :=
  JS.includes (JS.toLowerCase (name company)) (JS.toLowerCase (searchTerm vs))
  || JS.includes (JS.toLowerCase (location company))
                 (JS.toLowerCase (searchTerm vs)).

Definition matchesLocation (vs : ViewState) (company : Company) : bool :=
  negb (JS.truthy_string (locationFilter vs))
  || (location company =? locationFilter vs)%string.

Definition matchesIndustry (vs : ViewState) (company : Company) : bool :=
  negb (JS.truthy_string (industryFilter vs))
  || (industry company =? industryFilter vs)%string.

Definition keep (vs : ViewState) (company : Company) : bool :=
  matchesSearch vs company && matchesLocation vs company
  && matchesIndustry vs company.

Definition filtered (companies : list Company) (vs : ViewState)
  : list Company :=
  List.filter (keep vs) companies.

(** A field value [a[sortBy]]: a string or a number. *)
Inductive FieldValue :=
| VStr (s : string)
| VNum (n : Z).

Definition field (k : SortKey) (c : Company) : FieldValue :=
  match k with
  | K_name => VStr (name c)
  | K_location => VStr (location c)
  | K_industry => VStr (industry c)
  | K_employees => VNum (employees c)
  | K_founded => VNum (founded c)
  end.

(** [if (typeof aVal === 'string') aVal = aVal.toLowerCase()]. *)
Definition normalise (v : FieldValue) : FieldValue :=
  match v with
  | VStr s => VStr (JS.toLowerCase s)
  | VNum n => VNum n
  end.

(** [aVal > bVal] and [aVal < bVal].  Both operands are the same field of
    two records, so they are two strings or two numbers; on a string and a
    number (which the typed record excludes) this model answers [false]. *)
Definition val_gt (x y : FieldValue) : bool :=
  match x, y with
  | VStr s, VStr t => JS.str_gt s t
  | VNum m, VNum n => n <? m
  | _, _ => false
  end.

Definition val_lt (x y : FieldValue) : bool :=
  match x, y with
  | VStr s, VStr t => JS.str_lt s t
  | VNum m, VNum n => m <? n
  | _, _ => false
  end.

(** The comparator passed to [filtered.sort]. *)
Definition sort_cmp (k : SortKey) (o : SortOrder) (a b : Company) : Z :=
  let aVal := normalise (field k a) in
  let bVal := normalise (field k b) in
  match o with
  | asc => if val_gt aVal bVal then 1 else -1
  | desc => if val_lt aVal bVal then 1 else -1
  end.

(** The [useMemo] body: filter, then sort the fresh array in place. *)
Definition filteredCompanies (companies : list Company) (vs : ViewState)
  : list Company :=
  JS.sort (sort_cmp (sortBy vs) (sortOrder vs)) (filtered companies vs).

(** [Math.ceil(filteredCompanies.length / itemsPerPage)]: the ceiling of
    the exact quotient (an array length over 6 is far inside the range where
    the double quotient has the same ceiling). *)
Definition totalPages (fc : list Company) : Z :=
  Qceiling (inject_Z (Z.of_nat (List.length fc)) / inject_Z itemsPerPage).

Definition paginatedCompanies (fc : list Company) (page : Z) : list Company :=
  JS.slice fc ((page - 1) * itemsPerPage) (page * itemsPerPage).

(** *** Event handlers *)

Definition onSearchChange (value : string) (vs : ViewState) : ViewState :=
  mkViewState value (locationFilter vs) (industryFilter vs)
              (sortBy vs) (sortOrder vs) 1.

Definition onLocationChange (value : string) (vs : ViewState) : ViewState :=
  mkViewState (searchTerm vs) value (industryFilter vs)
              (sortBy vs) (sortOrder vs) 1.

Definition onIndustryChange (value : string) (vs : ViewState) : ViewState :=
  mkViewState (searchTerm vs) (locationFilter vs) value
              (sortBy vs) (sortOrder vs) 1.

Definition SortKey_eqb (a b : SortKey) : bool :=
  match a, b with
  | K_name, K_name | K_location, K_location | K_industry, K_industry
  | K_employees, K_employees | K_founded, K_founded => true
  | _, _ => false
  end.

Definition handleSort (fld : SortKey) (vs : ViewState) : ViewState :=
  if SortKey_eqb (sortBy vs) fld then
    mkViewState (searchTerm vs) (locationFilter vs) (industryFilter vs)
                (sortBy vs)
                (match sortOrder vs with asc => desc | desc => asc end)
                (currentPage vs)
  else
    mkViewState (searchTerm vs) (locationFilter vs) (industryFilter vs)
                fld asc (currentPage vs).

Definition resetFilters (vs : ViewState) : ViewState :=
  mkViewState "" "" "" K_name asc 1.

(** The page numbers [[...Array(totalPages)].map((_, i) => i + 1)] of the
    numbered buttons. *)
Definition pageNumbers (total : Z) : list Z :=
  List.map (fun i => Z.of_nat i + 1) (seq 0 (Z.to_nat total)).

(** The pagination bar, rendered only when [totalPages > 1]. *)
Definition onPrevious (vs : ViewState) : ViewState :=
  mkViewState (searchTerm vs) (locationFilter vs) (industryFilter vs)
              (sortBy vs) (sortOrder vs) (Z.max 1 (currentPage vs - 1)).

Definition onPageButton (i : Z) (vs : ViewState) : ViewState :=
  mkViewState (searchTerm vs) (locationFilter vs) (industryFilter vs)
              (sortBy vs) (sortOrder vs) (i + 1).

Definition onNext (total : Z) (vs : ViewState) : ViewState :=
  mkViewState (searchTerm vs) (locationFilter vs) (industryFilter vs)
              (sortBy vs) (sortOrder vs) (Z.min total (currentPage vs + 1)).

(** *** Derived values and render conditions *)

(** [disabled={currentPage === 1}] and [disabled={currentPage === totalPages}]. *)
Definition previousDisabled (vs : ViewState) : bool := currentPage vs =? 1.

Definition nextDisabled (total : Z) (vs : ViewState) : bool :=
  currentPage vs =? total.

(** *** The component: loading, error and refresh *)

Module App.

(** The options of the two drop-downs. *)
Definition locations (companies : list Company) : list string :=
  JS.sort JS.default_cmp (JS.spread_Set (List.map location companies)).

Definition industries (companies : list Company) : list string :=
  JS.sort JS.default_cmp (JS.spread_Set (List.map industry companies)).

Inductive ViewMode := table | card.

(** All the [useState] cells of the component. *)
Record State := mkState {
  companies : list Company;
  loading : bool;
  error : option string;
  view : ViewState;
  viewMode : ViewMode;
  refreshing : bool
}.

(** The state at mount: every cell at its [useState] initial value. *)
Definition initial : State :=
  mkState [] true None (mkViewState "" "" "" K_name asc 1) table false.

(** How the request to [/api/companies] ends: [fetch] or [response.json()]
    rejects, the status is not ok, or a JSON body arrives with its [success]
    flag and [data]. *)
Inductive FetchOutcome :=
| Rejected
| NotOk
| Body (success : bool) (data : list Company).

Definition load_error : string :=
  "Unable to load companies. Make sure the backend server is running on port 5000.".

(** [fetchCompanies]: the cells after its [try], [catch] and [finally]
    have run. *)
Definition fetchCompanies (o : FetchOutcome) (st : State) : State :=
  let st1 := mkState (companies st) true None
                     (view st) (viewMode st) (refreshing st) in
  let st2 :=
    match o with
    | Body true data =>
        mkState data (loading st1) (error st1)
                (view st1) (viewMode st1) (refreshing st1)
    | _ =>
        mkState (companies st1) (loading st1) (Some load_error)
                (view st1) (viewMode st1) (refreshing st1)
    end in
  mkState (companies st2) false (error st2)
          (view st2) (viewMode st2) (refreshing st2).

(** [handleRefresh]: the POST's response is awaited but not looked at; when
    the POST itself rejects, the [catch] logs and the list is not reloaded. *)
Definition handleRefresh (post_resolves : bool) (o : FetchOutcome)
           (st : State) : State :=
  let st1 := mkState (companies st) (loading st) (error st)
                     (view st) (viewMode st) true in
  let st2 := if post_resolves then fetchCompanies o st1 else st1 in
  mkState (companies st2) (loading st2) (error st2)
          (view st2) (viewMode st2) false.

(** What the component returns: the loading screen, the error screen, or
    the directory with its rows, the two numbers of "Showing x of y", and
    whether the pagination bar and the "No companies found" panel are
    there.  [error] only ever holds [null] or the fixed, non-empty message,
    so [if (error)] is the test for [Some]. *)
Inductive Screen :=
| LoadingScreen
| ErrorScreen (message : string)
| Directory (rows : list Company) (showing matching : nat)
            (paginationBar emptyPanel : bool).

Definition render (st : State) : Screen :=
  if loading st then LoadingScreen
  else match error st with
       | Some message => ErrorScreen message
       | None =>
           let fc := filteredCompanies (companies st) (view st) in
           let rows := paginatedCompanies fc (currentPage (view st)) in
           Directory rows (List.length rows) (List.length fc)
                     (1 <? totalPages fc)
                     (Nat.eqb (List.length fc) 0)
       end.

End App.

(** ** Cache service: backend/server.js *)

Module Server.

Definition CACHE_DURATION : Z := 3600000.

(** [getRealCompanies()]: the curated list. *)
Definition getRealCompanies : list Company :=
  [ mkCompany 1 "Apple Inc." "Cupertino, CA" "Technology" 164000 1976 "AAPL";
    mkCompany 2 "Microsoft Corporation" "Redmond, WA" "Technology" 221000 1975 "MSFT";
    mkCompany 3 "Amazon.com Inc." "Seattle, WA" "Retail" 1541000 1994 "AMZN";
    mkCompany 4 "Tesla Inc." "Austin, TX" "Energy" 127855 2003 "TSLA";
    mkCompany 5 "Meta Platforms Inc." "Menlo Park, CA" "Technology" 86482 2004 "META";
    mkCompany 6 "Alphabet Inc." "Mountain View, CA" "Technology" 190234 1998 "GOOGL";
    mkCompany 7 "JPMorgan Chase & Co." "New York, NY" "Finance" 293723 1799 "JPM";
    mkCompany 8 "Johnson & Johnson" "New Brunswick, NJ" "Healthcare" 152700 1886 "JNJ";
    mkCompany 9 "Visa Inc." "San Francisco, CA" "Finance" 26500 1958 "V";
    mkCompany 10 "Walmart Inc." "Bentonville, AR" "Retail" 2100000 1962 "WMT";
    mkCompany 11 "Procter & Gamble" "Cincinnati, OH" "Retail" 107000 1837 "PG";
    mkCompany 12 "UnitedHealth Group" "Minnetonka, MN" "Healthcare" 440000 1977 "UNH";
    mkCompany 13 "NVIDIA Corporation" "Santa Clara, CA" "Technology" 29600 1993 "NVDA";
    mkCompany 14 "Exxon Mobil" "Irving, TX" "Energy" 62000 1999 "XOM";
    mkCompany 15 "Pfizer Inc." "New York, NY" "Healthcare" 83000 1849 "PFE";
    mkCompany 16 "Coca-Cola Company" "Atlanta, GA" "Retail" 82500 1892 "KO";
    mkCompany 17 "Intel Corporation" "Santa Clara, CA" "Technology" 124800 1968 "INTC";
    mkCompany 18 "Chevron Corporation" "San Ramon, CA" "Energy" 43846 1879 "CVX";
    mkCompany 19 "Mastercard Inc." "Purchase, NY" "Finance" 33000 1966 "MA";
    mkCompany 20 "Netflix Inc." "Los Gatos, CA" "Technology" 12800 1997 "NFLX" ].

(** *** The outside world *)

(** One value of the registry's JSON object, at the shape the mapping
    reads: [company.title] and [company.ticker]. *)
Record SecEntry := mkSecEntry {
  title : string;
  sec_ticker : string
}.

(** How one [axios.get] settles.  [Rejects] covers a network error, the
    5000 ms timeout and a non-success status; a payload on which the
    mapping itself throws lands in the same [catch]. *)
Inductive AxiosOutcome :=
| Rejects (message : string)
| Resolves (data : list SecEntry).

(** What the program cannot decide: for the k-th outbound request its
    latency in milliseconds and how it settles, and the k-th value
    [Math.random()] returns. *)
Record Env := mkEnv {
  axios_reply : nat -> Z * AxiosOutcome;
  random_draw : nat -> Q
}.

(** The two module-level variables, the wall clock [Date.now()] reads, and
    two counters: outbound requests issued and random values drawn. *)
Record World := mkWorld {
  cachedCompanies : option (list Company);
  lastFetchTime : option Z;
  clock : Z;
  requests : nat;
  draws : nat
}.

(** *** A state-and-exception monad *)

Inductive Result (A : Type) :=
| Returns (a : A)
| Throws (message : string).
Arguments Returns {A} a.
Arguments Throws {A} message.

Definition M (A : Type) : Type := Env -> World -> Result A * World.

Definition ret {A : Type} (a : A) : M A := fun _ w => (Returns a, w).

Definition bind {A B : Type} (m : M A) (f : A -> M B) : M B :=
  fun env w =>
    match m env w with
    | (Returns a, w') => f a env w'
    | (Throws e, w') => (Throws e, w')
    end.

Definition try_catch {A : Type} (body : M A) (handler : string -> M A) : M A :=
  fun env w =>
    match body env w with
    | (Returns a, w') => (Returns a, w')
    | (Throws e, w') => handler e env w'
    end.

Notation "x <- m ;; k" := (bind m (fun x => k))
  (at level 61, m at next level, right associativity).
Notation "m ;;; k" := (bind m (fun _ => k))
  (at level 61, right associativity).

Definition Date_now : M Z := fun _ w => (Returns (clock w), w).

Definition Math_random : M Q :=
  fun env w =>
    (Returns (random_draw env (draws w)),
     mkWorld (cachedCompanies w) (lastFetchTime w) (clock w)
             (requests w) (S (draws w))).

(** [await axios.get(url, { timeout: 5000 })]: one more request, the clock
    moves on by the latency, and the promise resolves or rejects. *)
Definition axios_get : M (list SecEntry) :=
  fun env w =>
    let (latency, outcome) := axios_reply env (requests w) in
    let w' := mkWorld (cachedCompanies w) (lastFetchTime w)
                      (clock w + latency) (S (requests w)) (draws w) in
    match outcome with
    | Rejects e => (Throws e, w')
    | Resolves data => (Returns data, w')
    end.

Definition read_cachedCompanies : M (option (list Company)) :=
  fun _ w => (Returns (cachedCompanies w), w).

Definition read_lastFetchTime : M (option Z) :=
  fun _ w => (Returns (lastFetchTime w), w).

Definition write_cachedCompanies (v : list Company) : M unit :=
  fun _ w =>
    (Returns tt,
     mkWorld (Some v) (lastFetchTime w) (clock w) (requests w) (draws w)).

Definition write_lastFetchTime (t : Z) : M unit :=
  fun _ w =>
    (Returns tt,
     mkWorld (cachedCompanies w) (Some t) (clock w) (requests w) (draws w)).

(** *** fetchFromSEC, fetchCompanies *)

Definition industries : list string :=
  ["Technology"; "Finance"; "Healthcare"; "Retail"; "Energy"].

(** The callback of [secData.map((company, index) => ...)], run left to
    right from [index]; each record draws twice, [employees] first. *)
Fixpoint mapEntries (index : nat) (secData : list SecEntry)
  : M (list Company) :=
  match secData with
  | [] => ret []
  | company :: rest =>
      r1 <- Math_random ;;
      r2 <- Math_random ;;
      let c := mkCompany (Z.of_nat index + 1)
                 (title company)
                 "United States"
                 (nth (index mod 5) industries "")
                 (Qfloor (r1 * inject_Z 5000) + 100)
                 (Qfloor (r2 * inject_Z (2020 - 1950) + inject_Z 1950))
                 (sec_ticker company) in
      cs <- mapEntries (S index) rest ;;
      ret (c :: cs)
  end.

(** [null] is [None]. *)
Definition fetchFromSEC : M (option (list Company)) :=
  try_catch
    (data <- axios_get ;;
     let secData := JS.slice data 0 20 in
     companies <- mapEntries 0 secData ;;
     ret (Some companies))
    (fun error => ret None).

Definition fetchCompanies : M (list Company) :=
  secData <- fetchFromSEC ;;
  match secData with
  | Some l => if (0 <? Z.of_nat (List.length l)) then ret l
              else ret getRealCompanies
  | None => ret getRealCompanies
  end.

(** *** Routes *)

(** The JSON bodies the routes send, one constructor per shape; [status]
    is the HTTP status each goes out with. *)
Inductive Response :=
| CompaniesBody (data : list Company) (count : nat) (source : string)
                (timestamp : option Z)
| RefreshBody (message : string) (data : list Company) (count : nat)
| CompanyBody (data : Company)
| NotFoundBody (message : string)
| ErrorBody (message : string) (error : string).

Definition status (r : Response) : Z :=
  match r with
  | CompaniesBody _ _ _ _ | RefreshBody _ _ _ | CompanyBody _ => 200
  | NotFoundBody _ => 404
  | ErrorBody _ _ => 500
  end.

(** Truthiness of [lastFetchTime]: [null] and [0] are falsy. *)
Definition truthy_time (t : option Z) : bool :=
  match t with
  | None => false
  | Some n => negb (n =? 0)
  end.

(** [currentTime - lastFetchTime]; [null] converts to 0. *)
Definition elapsed (currentTime : Z) (t : option Z) : Z :=
  match t with
  | None => currentTime
  | Some n => currentTime - n
  end.

(** [app.get('/api/companies')].  An array, even an empty one, is truthy. *)
Definition get_companies : M Response :=
  try_catch
    (currentTime <- Date_now ;;
     cached <- read_cachedCompanies ;;
     last <- read_lastFetchTime ;;
     let fetch_fresh :=
       companies <- fetchCompanies ;;
       write_cachedCompanies companies ;;;
       write_lastFetchTime currentTime ;;;
       stamp <- Date_now ;;
       ret (CompaniesBody companies (List.length companies) "api"
                          (Some stamp)) in
     match cached with
     | Some l =>
         if truthy_time last && (elapsed currentTime last <? CACHE_DURATION)
         then ret (CompaniesBody l (List.length l) "cache" None)
         else fetch_fresh
     | None => fetch_fresh
     end)
    (fun error => ret (ErrorBody "Failed to fetch companies" error)).

(** [app.post('/api/companies/refresh')]. *)
Definition post_refresh : M Response :=
  try_catch
    (companies <- fetchCompanies ;;
     write_cachedCompanies companies ;;;
     now <- Date_now ;;
     write_lastFetchTime now ;;;
     ret (RefreshBody "Data refreshed successfully" companies
                      (List.length companies)))
    (fun error => ret (ErrorBody "Failed to refresh data" error)).

(** *** parseInt *)

(** The white space [parseInt] skips, within Latin-1: TAB, LF, VT, FF, CR,
    SPACE and NBSP. *)
Definition is_space (c : ascii) : bool :=
  let n := nat_of_ascii c in
  ((9 <=? n) && (n <=? 13) || (n =? 32) || (n =? 160))%nat.

Fixpoint skip_space (s : string) : string :=
  match s with
  | String c s' => if is_space c then skip_space s' else s
  | EmptyString => s
  end.

(** The value of a digit in a radix up to 36, if it is one. *)
Definition digit_value (radix : Z) (c : ascii) : option Z :=
  let n := Z.of_nat (nat_of_ascii c) in
  let v := if (48 <=? n) && (n <=? 57) then n - 48
           else if (97 <=? n) && (n <=? 122) then n - 87
           else if (65 <=? n) && (n <=? 90) then n - 55
           else radix in
  if v <? radix then Some v else None.

(** The longest run of digits at the front of [s], read in [radix] on top
    of [acc]; [seen] says whether a digit has been read yet. *)
Fixpoint read_digits (radix : Z) (s : string) (seen : bool) (acc : Z)
  : option Z :=
  match s with
  | String c s' =>
      match digit_value radix c with
      | Some v => read_digits radix s' true (acc * radix + v)
      | None => if seen then Some acc else None
      end
  | EmptyString => if seen then Some acc else None
  end.

(** [parseInt(s)] with no radix argument; [None] is [NaN].  The result is
    the exact integer (a double rounds it once it has more than 53 bits). *)
Definition parseInt (s : string) : option Z :=
  let s1 := skip_space s in
  let (sign, s2) :=
    match s1 with
    | String "-" r => (-1, r)
    | String "+" r => (1, r)
    | _ => (1, s1)
    end in
  let (radix, s3) :=
    match s2 with
    | String "0" (String "x" r) => (16, r)
    | String "0" (String "X" r) => (16, r)
    | _ => (10, s2)
    end in
  match read_digits radix s3 false 0 with
  | Some n => Some (sign * n)
  | None => None
  end.

(** [c.id === n] for a number [n] that may be [NaN]. *)
Definition strict_eq (i : Z) (n : option Z) : bool :=
  match n with
  | Some z => i =? z
  | None => false
  end.

(** [app.get('/api/companies/:id')]. *)
Definition get_company (id_param : string) : M Response :=
  try_catch
    (cached <- read_cachedCompanies ;;
     match cached with
     | None => companies <- fetchCompanies ;; write_cachedCompanies companies
     | Some _ => ret tt
     end ;;;
     cached' <- read_cachedCompanies ;;
     match cached' with
     | Some l =>
         match List.find (fun c => strict_eq (id c) (parseInt id_param)) l with
         | None => ret (NotFoundBody "Company not found")
         | Some company => ret (CompanyBody company)
         end
     | None => fun _ w => (Throws "Cannot read properties of null", w)
     end)
    (fun error => ret (ErrorBody "Error fetching company" error)).

(** A request the server can receive. *)
Inductive Request :=
| GetCompanies
| GetCompany (id_param : string)
| PostRefresh.

Definition serve (r : Request) : M Response :=
  match r with
  | GetCompanies => get_companies
  | GetCompany p => get_company p
  | PostRefresh => post_refresh
  end.

(** The process starts with both variables [null]. *)
Definition boot (now : Z) : World := mkWorld None None now 0 0.

(** [app.get('/api/health')]: the fields that vary. *)
Record HealthBody := mkHealth {
  health_success : bool;
  health_timestamp : Z;
  cacheStatus : string
}.

Definition get_health : M HealthBody :=
  stamp <- Date_now ;;
  cached <- read_cachedCompanies ;;
  ret (mkHealth true stamp
         match cached with
         | Some l =>
             (JS.toString (List.length l) ++ " companies cached")%string
         | None => "empty"
         end).

End Server.

(** * Vocabulary of the specification *)

(** [t] occurs in [s]: the words of the specification. *)
Definition is_substring (t s : string) : Prop :=
  exists pre post : string, s = (pre ++ t ++ post)%string.

(** [a] immediately followed by [b] in [l]. *)
Definition adjacent {A : Type} (a b : A) (l : list A) : Prop :=
  exists l1 l2, l = l1 ++ a :: b :: l2.

(** Some occurrence of [a] comes before some occurrence of [b] in [l]. *)
Definition before {A : Type} (a b : A) (l : list A) : Prop :=
  exists l1 l2 l3, l = l1 ++ a :: l2 ++ b :: l3.

(** The three-way compare of the specification on the field [k]: strings
    case-insensitively, numbers by value. *)
Definition compare_key (k : SortKey) (a b : Company) : comparison :=
  match k with
  | K_name =>
      String.compare (JS.toLowerCase (name a)) (JS.toLowerCase (name b))
  | K_location =>
      String.compare (JS.toLowerCase (location a))
                     (JS.toLowerCase (location b))
  | K_industry =>
      String.compare (JS.toLowerCase (industry a))
                     (JS.toLowerCase (industry b))
  | K_employees => Z.compare (employees a) (employees b)
  | K_founded => Z.compare (founded a) (founded b)
  end.

(** A pair in this order of the list respects the direction: ascending
    never steps down, descending never steps up. *)
Definition respects (o : SortOrder) (c : comparison) : Prop :=
  match o with
  | asc => c <> Gt
  | desc => c <> Lt
  end.

Definition flip (o : SortOrder) : SortOrder :=
  match o with asc => desc | desc => asc end.

(** The state after the direction alone has changed. *)
Definition with_order (o : SortOrder) (vs : ViewState) : ViewState :=
  mkViewState (searchTerm vs) (locationFilter vs) (industryFilter vs)
              (sortBy vs) o (currentPage vs).

(** The filter rule as the specification words it. *)
Definition kept_by_spec (vs : ViewState) (c : Company) : Prop :=
  (searchTerm vs = ""
   \/ is_substring (JS.toLowerCase (searchTerm vs)) (JS.toLowerCase (name c))
   \/ is_substring (JS.toLowerCase (searchTerm vs))
                   (JS.toLowerCase (location c)))
  /\ (locationFilter vs = "" \/ location c = locationFilter vs)
  /\ (industryFilter vs = "" \/ industry c = industryFilter vs).

(** Clamping a page into [1, max(1, totalPages)], as the specification
    words it. *)
Definition clamp_page (total page : Z) : Z :=
  Z.max 1 (Z.min page (Z.max 1 total)).

(** The [source] field of a response body, when the body has one. *)
Definition source_of (r : Server.Response) : option string :=
  match r with
  | Server.CompaniesBody _ _ source _ => Some source
  | _ => None
  end.

(** The test [GET /api/companies] makes before it serves from the cache. *)
Definition fresh (w : Server.World) : bool :=
  match Server.cachedCompanies w with
  | Some _ =>
      Server.truthy_time (Server.lastFetchTime w)
      && (Server.elapsed (Server.clock w) (Server.lastFetchTime w)
          <? Server.CACHE_DURATION)
  | None => false
  end.

(** The reply of the lookup once the snapshot [l] is in place. *)
Definition lookup_reply (id_param : string) (l : list Company) : Server.Response :=
  match List.find (fun c => Server.strict_eq (id c) (Server.parseInt id_param)) l with
  | None => Server.NotFoundBody "Company not found"
  | Some company => Server.CompanyBody company
  end.

(** The record invariants of the specification. *)
Definition unique_ids (l : list Company) : Prop := NoDup (List.map id l).

Definition employees_nonneg (l : list Company) : Prop :=
  Forall (fun c => 0 <= employees c) l.

(** Both invariants hold of whatever the world has cached. *)
Definition snapshot_ok (w : Server.World) : Prop :=
  forall l, Server.cachedCompanies w = Some l ->
            unique_ids l /\ employees_nonneg l.

(** The world after the server has answered the requests [rs] in turn. *)
Definition run (env : Server.Env) (rs : list Server.Request)
           (w : Server.World) : Server.World :=
  fold_left (fun w r => snd (Server.serve r env w)) rs w.

(** *** Sample data *)

(** The two records of the specification's end-to-end example. *)
Definition Acme : Company := mkCompany 1 "Acme" "NY" "Tech" 100 2000 "".
Definition Zenith : Company := mkCompany 2 "Zenith" "NY" "Finance" 50 1990 "".

Definition example_view : ViewState :=
  mkViewState "" "NY" "" K_employees desc 1.

(** A registry that times out after five seconds, every time. *)
Definition registry_down : Server.Env :=
  Server.mkEnv (fun _ => (5000, Server.Rejects "timeout of 5000ms exceeded"))
               (fun _ => 0%Q).

(** A registry that answers in 300 ms with two entries; every random draw
    is one half. *)
Definition registry_up : Server.Env :=
  Server.mkEnv
    (fun _ => (300, Server.Resolves [Server.mkSecEntry "NVIDIA CORP" "NVDA";
                                     Server.mkSecEntry "Apple Inc." "AAPL"]))
    (fun _ => (1 # 2)%Q).

(** What [registry_up] makes of its two entries: one half of 5000 plus 100
    employees, founded one half of the way from 1950 to 2020. *)
Definition registry_up_snapshot : list Company :=
  [ mkCompany 1 "NVIDIA CORP" "United States" "Technology" 2600 1985 "NVDA";
    mkCompany 2 "Apple Inc." "United States" "Finance" 2600 1985 "AAPL" ].

(** A server that fetched at clock 1000 and is asked again at clock 2000. *)
Definition warm_world : Server.World :=
  Server.mkWorld (Some Server.getRealCompanies) (Some 1000) 2000 1 0.

(** The world [d] milliseconds later, with nothing else having happened. *)
Definition tick (d : Z) (w : Server.World) : Server.World :=
  Server.mkWorld (Server.cachedCompanies w) (Server.lastFetchTime w)
                 (Server.clock w + d) (Server.requests w) (Server.draws w).

(** The view state with another search term, nothing else changed. *)
Definition with_search (t : string) (vs : ViewState) : ViewState :=
  mkViewState t (locationFilter vs) (industryFilter vs)
              (sortBy vs) (sortOrder vs) (currentPage vs).

(** No two records of [l] tie on the field [k]. *)
Definition distinct_keys (k : SortKey) (l : list Company) : Prop :=
  NoDup l
  /\ forall a b, In a l -> In b l -> compare_key k a b = Eq -> a = b.

(** What may follow the digits of a number for [parseInt] to stop there:
    nothing, or a character that is no decimal digit. *)
Definition stops (tail : string) : Prop :=
  match tail with
  | EmptyString => True
  | String c _ => Server.digit_value 10 c = None
  end.

(** The string does not begin with the mark that, after a single 0, makes
    [parseInt] read hexadecimal. *)
Definition no_hex_mark (tail : string) : Prop :=
  match tail with
  | EmptyString => True
  | String c _ => c <> "x"%char /\ c <> "X"%char
  end.

(** The [cacheStatus] the health route reports in the world [w]. *)
Definition health_status (env : Server.Env) (w : Server.World) : string :=
  match fst (Server.get_health env w) with
  | Server.Returns body => Server.cacheStatus body
  | Server.Throws _ => ""
  end.

(** The shape of a mapped record: what does not depend on the draws. *)
Definition mapped_from (index : nat) (entry : Server.SecEntry) (c : Company) : Prop :=
  id c = Z.of_nat index + 1
  /\ name c = Server.title entry
  /\ ticker c = Server.sec_ticker entry
  /\ location c = "United States"
  /\ industry c = nth (index mod 5) Server.industries "".

(** The bounds of the filler fields.  They are the ones the double
    arithmetic of the source keeps too, where a product can round up to its
    bound. *)
Definition plausible_filler (c : Company) : Prop :=
  100 <= employees c <= 5100 /\ 1950 <= founded c <= 2020.

(** [cs] are the entries [secData] mapped one for one, numbered from
    [index]. *)
Fixpoint mapped_all (index : nat) (secData : list Server.SecEntry)
         (cs : list Company) : Prop :=
  match secData, cs with
  | [], [] => True
  | entry :: rest, c :: cs' =>
      mapped_from index entry c /\ mapped_all (S index) rest cs'
  | _, _ => False
  end.

(** * Properties *)

(** ** Strings: substrings and the lexicographic order *)

Lemma startsWith_spec (s t : string) :
  JS.startsWith s t = true <-> exists post, s = (t ++ post)%string.
Proof.
  revert s; induction t as [|b t IH]; intros s; simpl.
  - split; [intros _; now exists s | reflexivity].
  - destruct s as [|a s].
    + split; [discriminate | intros [post H]; discriminate].
    + rewrite andb_true_iff, Ascii.eqb_eq, IH. split.
      * intros [-> [post ->]]. now exists post.
      * intros [post H]. injection H as -> ->. split; [reflexivity | now exists post].
Qed.

Lemma includes_spec (s t : string) :
  JS.includes s t = true <-> is_substring t s.
Proof.
  unfold is_substring.
  induction s as [|a s IH]; simpl.
  - rewrite orb_false_r, startsWith_spec. split.
    + intros [post H]. now exists "", post.
    + intros [pre [post H]]. destruct pre; [now exists post | discriminate].
  - rewrite orb_true_iff, IH, startsWith_spec. split.
    + intros [[post H] | [pre [post H]]].
      * now exists "", post.
      * exists (String a pre), post. simpl. now rewrite H.
    + intros [pre [post H]]. destruct pre as [|c pre]; simpl in H.
      * left. now exists post.
      * right. injection H as -> H. now exists pre, post.
Qed.

Lemma includes_empty (s : string) : JS.includes s "" = true.
Proof. apply includes_spec. now exists "", s. Qed.

Lemma truthy_string_false (s : string) :
  JS.truthy_string s = false <-> s = "".
Proof.
  unfold JS.truthy_string. rewrite negb_false_iff. apply String.eqb_eq.
Qed.

Lemma ascii_compare_lt (a b : ascii) :
  Ascii.compare a b = Lt <-> (N_of_ascii a < N_of_ascii b)%N.
Proof. unfold Ascii.compare. apply N.compare_lt_iff. Qed.

Lemma ascii_compare_eq (a b : ascii) : Ascii.compare a b = Eq <-> a = b.
Proof.
  split; [apply Ascii.compare_eq_iff | intros ->].
  unfold Ascii.compare. apply N.compare_refl.
Qed.

Lemma string_compare_refl (s : string) : String.compare s s = Eq.
Proof.
  induction s as [|a s IH]; simpl; [reflexivity |].
  now rewrite (proj2 (ascii_compare_eq a a) eq_refl).
Qed.

Lemma string_compare_lt_trans (x y z : string) :
  String.compare x y = Lt -> String.compare y z = Lt ->
  String.compare x z = Lt.
Proof.
  revert y z; induction x as [|a x IH]; intros [|b y] [|c z]; simpl;
    try congruence.
  destruct (Ascii.compare a b) eqn:Hab; try discriminate;
    destruct (Ascii.compare b c) eqn:Hbc; try discriminate; intros H1 H2.
  - apply ascii_compare_eq in Hab, Hbc. subst.
    rewrite (proj2 (ascii_compare_eq c c) eq_refl). eauto.
  - apply ascii_compare_eq in Hab. subst. now rewrite Hbc.
  - apply ascii_compare_eq in Hbc. subst. now rewrite Hab.
  - apply ascii_compare_lt in Hab. apply ascii_compare_lt in Hbc.
    assert (Hac : Ascii.compare a c = Lt)
      by (apply ascii_compare_lt; eapply N.lt_trans; eassumption).
    now rewrite Hac.
Qed.

(** ** The sort model: permutation and order *)

Lemma adjacent_before {A : Type} (a b : A) (l : list A) :
  adjacent a b l -> before a b l.
Proof. intros [l1 [l2 ->]]. now exists l1, [], l2. Qed.

Lemma before_In {A : Type} (a b : A) (l : list A) :
  before a b l -> In a l /\ In b l.
Proof.
  intros [l1 [l2 [l3 ->]]]. split; apply in_or_app; right.
  - now left.
  - right. apply in_or_app. right. now left.
Qed.

Lemma In_In_before {A : Type} (a b : A) (l : list A) :
  In a l -> In b l -> a <> b -> before a b l \/ before b a l.
Proof.
  intros Ha Hb Hne.
  destruct (in_split _ _ Ha) as [l1 [l2 ->]].
  apply in_app_or in Hb. destruct Hb as [Hb | [Hb | Hb]].
  - right. destruct (in_split _ _ Hb) as [m1 [m2 ->]].
    exists m1, m2, l2. now rewrite <- app_assoc.
  - congruence.
  - left. destruct (in_split _ _ Hb) as [m1 [m2 ->]].
    now exists l1, m1, m2.
Qed.

Section InsertionSort.
Context {A : Type}.
Variable cmp : A -> A -> Z.
Variable R : A -> A -> Prop.

(** What the sign of the comparator must mean for [R]. *)
Hypothesis below : forall p x, (cmp p x <? 0) = true -> R p x.
Hypothesis above : forall p x, (cmp p x <? 0) = false -> R x p.

Lemma insert_perm (p : A) (l : list A) :
  Permutation (p :: l) (JS.insert cmp p l).
Proof.
  induction l as [|x l IH]; simpl; [reflexivity |].
  destruct (cmp p x <? 0); [reflexivity |].
  rewrite perm_swap. now constructor.
Qed.

Lemma sort_acc_perm (l acc : list A) :
  Permutation (l ++ acc) (fold_left (fun a x => JS.insert cmp x a) l acc).
Proof.
  revert acc; induction l as [|x l IH]; intros acc; simpl; [reflexivity |].
  rewrite <- IH. rewrite <- insert_perm. apply Permutation_middle.
Qed.

Lemma sort_perm (l : list A) : Permutation l (JS.sort cmp l).
Proof.
  unfold JS.sort. rewrite <- sort_acc_perm. now rewrite app_nil_r.
Qed.

Lemma insert_hd (p y : A) (l : list A) :
  R y p -> HdRel R y l -> HdRel R y (JS.insert cmp p l).
Proof.
  intros Hyp Hy. destruct l as [|x l]; simpl.
  - now constructor.
  - destruct (cmp p x <? 0); constructor; [assumption |].
    now inversion Hy.
Qed.

Lemma insert_sorted (p : A) (l : list A) :
  Sorted R l -> Sorted R (JS.insert cmp p l).
Proof.
  induction 1 as [|x l Hs IH Hhd]; simpl.
  - repeat constructor.
  - destruct (cmp p x <? 0) eqn:E.
    + constructor; [now constructor |]. constructor. now apply below.
    + constructor; [assumption |]. apply insert_hd; [now apply above | assumption].
Qed.

Lemma sort_acc_sorted (l acc : list A) :
  Sorted R acc -> Sorted R (fold_left (fun a x => JS.insert cmp x a) l acc).
Proof.
  revert acc; induction l as [|x l IH]; intros acc Hacc; simpl;
    [assumption |].
  apply IH. now apply insert_sorted.
Qed.

Lemma sort_sorted (l : list A) : Sorted R (JS.sort cmp l).
Proof. apply sort_acc_sorted. constructor. Qed.

Lemma Sorted_adjacent (a b : A) (l : list A) :
  Sorted R l -> adjacent a b l -> R a b.
Proof.
  intros Hs [l1 [l2 ->]]. induction l1 as [|x l1 IH]; simpl in Hs.
  - inversion Hs as [|? ? _ Hhd]; subst. now inversion Hhd.
  - apply IH. now inversion Hs.
Qed.

Hypothesis R_trans : forall x y z, R x y -> R y z -> R x z.

Lemma Sorted_before (a b : A) (l : list A) :
  Sorted R l -> before a b l -> R a b.
Proof.
  intros Hs [l1 [l2 [l3 ->]]].
  apply Sorted_StronglySorted in Hs; [| exact R_trans].
  induction l1 as [|x l1 IH]; simpl in Hs.
  - inversion Hs as [|? ? _ Hall]; subst.
    rewrite Forall_forall in Hall. apply Hall.
    apply in_or_app. right. now left.
  - apply IH. now inversion Hs.
Qed.
End InsertionSort.

(** ** The order of the specification *)

Lemma compare_key_antisym (k : SortKey) (a b : Company) :
  compare_key k a b = CompOpp (compare_key k b a).
Proof.
  destruct k; simpl; auto using String.compare_antisym, Z.compare_antisym.
Qed.

Lemma compare_key_refl (k : SortKey) (a : Company) : compare_key k a a = Eq.
Proof.
  destruct k; simpl; auto using string_compare_refl, Z.compare_refl.
Qed.

Lemma compare_key_lt_trans (k : SortKey) (a b c : Company) :
  compare_key k a b = Lt -> compare_key k b c = Lt -> compare_key k a c = Lt.
Proof.
  destruct k; simpl; try apply string_compare_lt_trans;
    rewrite !Z.compare_lt_iff; lia.
Qed.

Lemma compare_key_eq_l (k : SortKey) (a b c : Company) :
  compare_key k a b = Eq -> compare_key k a c = compare_key k b c.
Proof.
  destruct k; simpl; intros H;
    try (apply String.compare_eq_iff in H; now rewrite H);
    apply Z.compare_eq in H; now rewrite H.
Qed.

Lemma compare_key_eq_r (k : SortKey) (a b c : Company) :
  compare_key k b c = Eq -> compare_key k a b = compare_key k a c.
Proof.
  intros H. rewrite (compare_key_antisym k a b), (compare_key_antisym k a c).
  f_equal. symmetry. apply compare_key_eq_l.
  rewrite compare_key_antisym, H. reflexivity.
Qed.

Lemma respects_trans (k : SortKey) (o : SortOrder) (a b c : Company) :
  respects o (compare_key k a b) -> respects o (compare_key k b c) ->
  respects o (compare_key k a c).
Proof.
  destruct (compare_key k a b) eqn:Hab.
  - intros _. now rewrite (compare_key_eq_l k a b c Hab).
  - destruct (compare_key k b c) eqn:Hbc.
    + intros H _. now rewrite <- (compare_key_eq_r k a b c Hbc), Hab.
    + intros H _. now rewrite (compare_key_lt_trans k a b c Hab Hbc).
    + destruct o; simpl; congruence.
  - destruct (compare_key k b c) eqn:Hbc.
    + intros H _. now rewrite <- (compare_key_eq_r k a b c Hbc), Hab.
    + destruct o; simpl; congruence.
    + intros H _.
      assert (Hca : compare_key k c a = Lt).
      { apply compare_key_lt_trans with b.
        - rewrite compare_key_antisym, Hbc. reflexivity.
        - rewrite compare_key_antisym, Hab. reflexivity. }
      rewrite compare_key_antisym, Hca. exact H.
Qed.

(** ** The comparator against the order of the specification *)

Lemma string_ltb_lt (s t : string) :
  String.ltb s t = true <-> String.compare s t = Lt.
Proof. unfold String.ltb. destruct (String.compare s t); intuition congruence. Qed.

Lemma val_lt_compare (k : SortKey) (a b : Company) :
  val_lt (normalise (field k a)) (normalise (field k b)) = true
  <-> compare_key k a b = Lt.
Proof.
  destruct k; simpl; unfold JS.str_lt;
    try apply string_ltb_lt; rewrite Z.ltb_lt; symmetry; apply Z.compare_lt_iff.
Qed.

Lemma val_gt_compare (k : SortKey) (a b : Company) :
  val_gt (normalise (field k a)) (normalise (field k b)) = true
  <-> compare_key k a b = Gt.
Proof.
  rewrite compare_key_antisym.
  assert (H : val_gt (normalise (field k a)) (normalise (field k b))
              = val_lt (normalise (field k b)) (normalise (field k a)))
    by (destruct k; reflexivity).
  rewrite H, val_lt_compare.
  destruct (compare_key k b a); simpl; intuition congruence.
Qed.

(** The comparator never answers 0: it is two-valued. *)
Lemma sort_cmp_values (k : SortKey) (o : SortOrder) (a b : Company) :
  sort_cmp k o a b = 1 \/ sort_cmp k o a b = -1.
Proof.
  unfold sort_cmp. destruct o;
    [destruct (val_gt _ _) | destruct (val_lt _ _)]; auto.
Qed.

Lemma sort_cmp_below (k : SortKey) (o : SortOrder) (p x : Company) :
  (sort_cmp k o p x <? 0) = true -> respects o (compare_key k p x).
Proof.
  unfold sort_cmp. destruct o; simpl.
  - destruct (val_gt _ _) eqn:E; [discriminate |]. intros _ H.
    apply val_gt_compare in H. congruence.
  - destruct (val_lt _ _) eqn:E; [discriminate |]. intros _ H.
    apply val_lt_compare in H. congruence.
Qed.

Lemma sort_cmp_above (k : SortKey) (o : SortOrder) (p x : Company) :
  (sort_cmp k o p x <? 0) = false -> respects o (compare_key k x p).
Proof.
  unfold sort_cmp. destruct o; simpl.
  - destruct (val_gt _ _) eqn:E; [| discriminate]. intros _.
    apply val_gt_compare in E. rewrite compare_key_antisym, E. discriminate.
  - destruct (val_lt _ _) eqn:E; [| discriminate]. intros _.
    apply val_lt_compare in E. rewrite compare_key_antisym, E. discriminate.
Qed.

Lemma filteredCompanies_perm (companies : list Company) (vs : ViewState) :
  Permutation (filtered companies vs) (filteredCompanies companies vs).
Proof. apply sort_perm. Qed.

Lemma filteredCompanies_sorted (companies : list Company) (vs : ViewState) :
  Sorted (fun a b => respects (sortOrder vs) (compare_key (sortBy vs) a b))
         (filteredCompanies companies vs).
Proof.
  apply sort_sorted.
  - apply sort_cmp_below.
  - apply sort_cmp_above.
Qed.

Lemma filtered_with_order (companies : list Company) (o : SortOrder)
      (vs : ViewState) :
  filtered companies (with_order o vs) = filtered companies vs.
Proof. reflexivity. Qed.

(** ** C1: the sort step *)

(** C1. Two neighbours [a], [b] of the sorted view are records of the
    filtered list, the view is a rearrangement of that list, the three-way
    compare of their sort fields respects the direction, and, unless the two
    fields compare equal, sorting again with the direction flipped puts [b]
    before [a] and never [a] before [b]. *)
Theorem sort_respects_direction
        (companies : list Company) (vs : ViewState) (a b : Company)
        (Hadj : adjacent a b (filteredCompanies companies vs)) :
  Permutation (filtered companies vs) (filteredCompanies companies vs)
  /\ respects (sortOrder vs) (compare_key (sortBy vs) a b)
  /\ (compare_key (sortBy vs) a b = Eq
      \/ (before b a
            (filteredCompanies companies (with_order (flip (sortOrder vs)) vs))
          /\ ~ before a b
            (filteredCompanies companies
               (with_order (flip (sortOrder vs)) vs)))).
Proof.
  assert (Hab : respects (sortOrder vs) (compare_key (sortBy vs) a b)).
  { apply (Sorted_adjacent _ a b _ (filteredCompanies_sorted companies vs) Hadj). }
  split; [apply filteredCompanies_perm |]. split; [exact Hab |].
  destruct (compare_key (sortBy vs) a b) eqn:Hc; [now left | |]; right.
  all: set (vs' := with_order (flip (sortOrder vs)) vs).
  all: assert (Hnot : ~ before a b (filteredCompanies companies vs'))
    by (intros Hbef;
        pose proof (Sorted_before _ (respects_trans (sortBy vs') (sortOrder vs'))
                      a b _ (filteredCompanies_sorted companies vs') Hbef) as H;
        simpl in H; rewrite Hc in H; destruct (sortOrder vs); simpl in *;
        congruence).
  all: split; [| exact Hnot].
  all: assert (Hne : a <> b)
    by (intros ->; rewrite compare_key_refl in Hc; discriminate).
  all: destruct (before_In a b _ (adjacent_before a b _ Hadj)) as [Ha Hb].
  all: assert (Ha' : In a (filteredCompanies companies vs'))
    by (apply (Permutation_in a (filteredCompanies_perm companies vs'));
        change (filtered companies vs') with (filtered companies vs);
        apply (Permutation_in a
                 (Permutation_sym (filteredCompanies_perm companies vs)) Ha)).
  all: assert (Hb' : In b (filteredCompanies companies vs'))
    by (apply (Permutation_in b (filteredCompanies_perm companies vs'));
        change (filtered companies vs') with (filtered companies vs);
        apply (Permutation_in b
                 (Permutation_sym (filteredCompanies_perm companies vs)) Hb)).
  all: destruct (In_In_before a b _ Ha' Hb' Hne) as [H | H];
    [contradiction | exact H].
Qed.

(** ** C2: the filter step *)

Lemma keep_spec (vs : ViewState) (c : Company) :
  keep vs c = true <-> kept_by_spec vs c.
Proof.
  unfold keep, kept_by_spec, matchesSearch, matchesLocation, matchesIndustry.
  rewrite !andb_true_iff, !orb_true_iff, !negb_true_iff, !includes_spec,
    !truthy_string_false, !String.eqb_eq.
  split.
  - intros [[Hs Hl] Hi]. repeat split; auto.
  - intros [Hs [Hl Hi]]. repeat split; auto.
    destruct Hs as [E | Hs]; [| exact Hs].
    left. rewrite E. simpl. now exists "", (JS.toLowerCase (name c)).
Qed.

(** C2. The filter callback answers [true] exactly on the records the
    three-part rule keeps; so a record is in the filtered list, and in the
    sorted view made from it, exactly when it is in the input and the rule
    keeps it; and the filtered list is the input with the other records
    struck out, order and repetitions untouched. *)
Theorem filter_keeps_iff
        (companies : list Company) (vs : ViewState) (c : Company) :
  (keep vs c = true <-> kept_by_spec vs c)
  /\ (In c (filtered companies vs) <-> In c companies /\ kept_by_spec vs c)
  /\ (In c (filteredCompanies companies vs)
      <-> In c companies /\ kept_by_spec vs c)
  /\ filtered companies vs = List.filter (keep vs) companies.
Proof.
  assert (Hf : In c (filtered companies vs)
               <-> In c companies /\ kept_by_spec vs c).
  { unfold filtered. rewrite filter_In, keep_spec. reflexivity. }
  split; [apply keep_spec |]. split; [exact Hf |]. split; [| reflexivity].
  rewrite <- Hf. split; apply Permutation_in;
    [symmetry |]; apply filteredCompanies_perm.
Qed.

(** ** Pagination arithmetic *)

Lemma totalPages_eq (fc : list Company) :
  totalPages fc = (Z.of_nat (List.length fc) + 5) / 6.
Proof.
  unfold totalPages, itemsPerPage, Qceiling, Qfloor. simpl.
  rewrite Z.mul_1_r.
  generalize (Z.of_nat (List.length fc)). intros n.
  Z.to_euclidean_division_equations. lia.
Qed.

Lemma totalPages_bounds (fc : list Company) :
  itemsPerPage * (totalPages fc - 1) < Z.of_nat (List.length fc)
  <= itemsPerPage * totalPages fc.
Proof.
  rewrite totalPages_eq. unfold itemsPerPage.
  generalize (Z.of_nat (List.length fc)). intros n.
  Z.to_euclidean_division_equations. lia.
Qed.

Lemma firstn_chunk {A : Type} (l : list A) (n m : nat) :
  firstn n l ++ firstn m (skipn n l) = firstn (n + m) l.
Proof.
  revert l; induction n as [|n IH]; intros l; simpl; [reflexivity |].
  destruct l as [|x l]; simpl.
  - now rewrite firstn_nil.
  - now rewrite IH.
Qed.

(** The slice of page [n + 1]: six records from offset [6 n]. *)
Lemma paginated_chunk (fc : list Company) (n : nat) :
  paginatedCompanies fc (Z.of_nat n + 1) = firstn 6 (skipn (n * 6) fc).
Proof.
  unfold paginatedCompanies, JS.slice, itemsPerPage.
  replace (Z.of_nat n + 1 - 1) with (Z.of_nat n) by lia.
  destruct (Z.of_nat n * 6 <? 0) eqn:E1; [apply Z.ltb_lt in E1; lia |].
  destruct ((Z.of_nat n + 1) * 6 <? 0) eqn:E2; [apply Z.ltb_lt in E2; lia |].
  destruct (Nat.le_gt_cases (List.length fc) (n * 6)) as [Hout | Hin].
  - rewrite (skipn_all2 fc Hout).
    replace (Z.to_nat (Z.min (Z.of_nat n * 6) (Z.of_nat (List.length fc))))
      with (List.length fc) by lia.
    rewrite skipn_all. now rewrite !firstn_nil.
  - replace (Z.to_nat (Z.min (Z.of_nat n * 6) (Z.of_nat (List.length fc))))
      with (n * 6)%nat by lia.
    destruct (Nat.le_gt_cases (n * 6 + 6) (List.length fc)) as [Hfull | Hpart].
    + f_equal. lia.
    + assert (Hlen : List.length (skipn (n * 6) fc)
                     = (List.length fc - n * 6)%nat) by apply length_skipn.
      rewrite !firstn_all2; [reflexivity | lia | lia].
Qed.

Lemma pages_concat (fc : list Company) (n : nat) :
  List.concat (List.map (paginatedCompanies fc)
                   (List.map (fun i => Z.of_nat i + 1) (seq 0 n)))
  = firstn (n * 6) fc.
Proof.
  induction n as [|n IH]; [reflexivity |].
  rewrite seq_S, !map_app, concat_app, IH.
  change (0 + n)%nat with n. cbn [List.map List.concat].
  rewrite app_nil_r, paginated_chunk, firstn_chunk. f_equal. lia.
Qed.

(** ** C4: page count and coverage *)

(** C4. The page size is 6; [totalPages] is the ceiling of count / 6, that
    is the one integer [t] with [6 (t - 1) < count <= 6 t], and it is 0
    exactly when nothing matches; and the slices of pages 1 to [totalPages],
    one after the other, are the sorted view itself. *)
Theorem pages_cover_view (companies : list Company) (vs : ViewState) :
  itemsPerPage = 6
  /\ itemsPerPage * (totalPages (filteredCompanies companies vs) - 1)
     < Z.of_nat (List.length (filteredCompanies companies vs))
     <= itemsPerPage * totalPages (filteredCompanies companies vs)
  /\ (totalPages (filteredCompanies companies vs) = 0
      <-> List.length (filteredCompanies companies vs) = 0%nat)
  /\ List.concat (List.map (paginatedCompanies (filteredCompanies companies vs))
                      (pageNumbers
                         (totalPages (filteredCompanies companies vs))))
     = filteredCompanies companies vs.
Proof.
  generalize (filteredCompanies companies vs). intros fc.
  pose proof (totalPages_bounds fc) as Hb. unfold itemsPerPage in *.
  split; [reflexivity |]. split; [exact Hb |]. split; [lia |].
  unfold pageNumbers. rewrite pages_concat. apply firstn_all2. lia.
Qed.

(** ** C3: the page is not clamped by the paginate step *)

Lemma paginated_beyond (fc : list Company) (page : Z) :
  totalPages fc < page -> paginatedCompanies fc page = [].
Proof.
  intros H. pose proof (totalPages_bounds fc) as Hb. unfold itemsPerPage in Hb.
  replace page with (Z.of_nat (Z.to_nat (page - 1)) + 1) by lia.
  rewrite paginated_chunk, skipn_all2; [reflexivity | lia].
Qed.

Lemma paginated_within (fc : list Company) (page : Z) :
  1 <= page <= totalPages fc ->
  paginatedCompanies fc page
  = firstn 6 (skipn (Z.to_nat (page - 1) * 6) fc)
  /\ paginatedCompanies fc page <> [].
Proof.
  intros H. pose proof (totalPages_bounds fc) as Hb. unfold itemsPerPage in Hb.
  assert (Hp : paginatedCompanies fc page
               = firstn 6 (skipn (Z.to_nat (page - 1) * 6) fc)).
  { rewrite <- paginated_chunk. f_equal. lia. }
  split; [exact Hp |]. rewrite Hp.
  intros E. apply (f_equal (@List.length Company)) in E.
  rewrite length_firstn, length_skipn in E. cbn [List.length] in E. lia.
Qed.

(** C3, as the code has it. The paginate step slices at the page it is
    given and clamps nothing: a page within [1, totalPages] gets its six
    (or, on the last page, remaining) records, where clamping would change
    nothing, and a page beyond [totalPages] gets the empty slice.  The range
    is kept by the pagination bar instead: from a page within
    [1, totalPages], Previous, Next and every numbered button lead to a page
    within [1, totalPages]. *)
Theorem paginate_slices_requested_page
        (fc : list Company) (vs : ViewState) (i beyond : Z)
        (Hpage : 1 <= currentPage vs <= totalPages fc)
        (Hbutton : 0 <= i < totalPages fc)
        (Hbeyond : totalPages fc < beyond) :
  paginatedCompanies fc (currentPage vs)
  = firstn 6 (skipn (Z.to_nat (currentPage vs - 1) * 6) fc)
  /\ paginatedCompanies fc (currentPage vs) <> []
  /\ clamp_page (totalPages fc) (currentPage vs) = currentPage vs
  /\ paginatedCompanies fc beyond = []
  /\ 1 <= currentPage (onPrevious vs) <= totalPages fc
  /\ 1 <= currentPage (onNext (totalPages fc) vs) <= totalPages fc
  /\ 1 <= currentPage (onPageButton i vs) <= totalPages fc.
Proof.
  destruct (paginated_within fc (currentPage vs) Hpage) as [H1 H2].
  split; [exact H1 |]. split; [exact H2 |].
  split; [unfold clamp_page; lia |].
  split; [now apply paginated_beyond |].
  unfold onPrevious, onNext, onPageButton; simpl. lia.
Qed.

(** ** C5: which handlers reset the page *)

(** C5, as the code has it. Typing in the search box and choosing a
    location or an industry store the new value and set the page to 1, and
    so does the reset button; a click on a column header changes the sort
    column or flips the direction and leaves the page where it was. *)
Theorem filter_handlers_reset_page
        (value : string) (fld : SortKey) (vs : ViewState) :
  (searchTerm (onSearchChange value vs) = value
   /\ currentPage (onSearchChange value vs) = 1)
  /\ (locationFilter (onLocationChange value vs) = value
      /\ currentPage (onLocationChange value vs) = 1)
  /\ (industryFilter (onIndustryChange value vs) = value
      /\ currentPage (onIndustryChange value vs) = 1)
  /\ currentPage (resetFilters vs) = 1
  /\ currentPage (handleSort fld vs) = currentPage vs
  /\ (sortBy (handleSort fld vs) = fld)
  /\ (sortOrder (handleSort fld vs)
      = if SortKey_eqb (sortBy vs) fld then flip (sortOrder vs) else asc).
Proof.
  repeat split; unfold handleSort;
    destruct (SortKey_eqb (sortBy vs) fld) eqn:E; try reflexivity.
  simpl. destruct (sortBy vs), fld; simpl in E; congruence.
Qed.

(** ** The cache service: what a fetch does to the world *)

Import Server.

Lemma mapEntries_runs (env : Env) (secData : list SecEntry) :
  forall (index : nat) (w : World),
  exists cs,
    mapEntries index secData env w
    = (Returns cs,
       mkWorld (cachedCompanies w) (lastFetchTime w) (clock w) (requests w)
               (draws w + 2 * List.length secData))
    /\ List.map id cs
       = List.map (fun j => Z.of_nat j + 1) (seq index (List.length secData))
    /\ ((forall k, (0 <= random_draw env k)%Q) -> employees_nonneg cs).
Proof.
  induction secData as [|company rest IH]; intros index w.
  - exists []. simpl. unfold ret. rewrite Nat.add_0_r. destruct w.
    repeat split. constructor.
  - cbn [mapEntries]. unfold bind at 1 2. unfold Math_random at 1. simpl.
    unfold bind at 1.
    destruct (IH (S index)
                 (mkWorld (cachedCompanies w) (lastFetchTime w) (clock w)
                          (requests w) (S (S (draws w)))))
      as [cs [Hrun [Hid Hemp]]].
    rewrite Hrun. simpl. unfold ret.
    eexists. split; [| split].
    + f_equal. f_equal. lia.
    + simpl. now rewrite Hid.
    + intros Hrand. constructor; [| now apply Hemp].
      cbn [employees].
      assert (H0 : (0 <= random_draw env (draws w) * inject_Z 5000)%Q).
      { apply Qmult_le_0_compat; [apply Hrand | discriminate]. }
      apply Qfloor_resp_le in H0. change (Qfloor 0) with 0 in H0.
      unfold Qfloor, Qmult in H0. simpl in H0. lia.
Qed.

Lemma numbered_from_NoDup (index n : nat) :
  NoDup (List.map (fun j => Z.of_nat j + 1) (seq index n)).
Proof.
  apply Finite.Injective_map_NoDup; [| apply seq_NoDup].
  intros x y H. lia.
Qed.

Lemma getRealCompanies_unique : unique_ids getRealCompanies.
Proof. exact (numbered_from_NoDup 0 20). Qed.

Lemma getRealCompanies_nonneg : employees_nonneg getRealCompanies.
Proof.
  apply Forall_forall. intros c Hc. simpl in Hc.
  repeat (destruct Hc as [<- | Hc]; [simpl; lia |]). contradiction.
Qed.

(** A fetch always returns a list: it issues one request, lets the clock
    run for that request's latency, and touches neither server variable. *)
Lemma fetchCompanies_runs (env : Env) (w : World) :
  exists l d,
    fetchCompanies env w
    = (Returns l,
       mkWorld (cachedCompanies w) (lastFetchTime w)
               (clock w + fst (axios_reply env (requests w)))
               (S (requests w)) d)
    /\ unique_ids l
    /\ ((forall k, (0 <= random_draw env k)%Q) -> employees_nonneg l)
    /\ (forall msg,
          snd (axios_reply env (requests w)) = Rejects msg ->
          l = getRealCompanies /\ d = draws w).
Proof.
  unfold fetchCompanies, fetchFromSEC, bind, try_catch, axios_get.
  destruct (axios_reply env (requests w)) as [latency [msg | data]]; simpl.
  - exists getRealCompanies, (draws w). unfold ret.
    repeat split; auto using getRealCompanies_unique, getRealCompanies_nonneg.
  - destruct (mapEntries_runs env (JS.slice data 0 20) 0
                (mkWorld (cachedCompanies w) (lastFetchTime w)
                         (clock w + latency) (S (requests w)) (draws w)))
      as [cs [Hrun [Hid Hemp]]].
    rewrite Hrun. simpl. unfold ret.
    destruct (0 <? Z.of_nat (List.length cs)).
    + eexists cs, _. split; [reflexivity |]. split; [| split].
      * unfold unique_ids. rewrite Hid. apply numbered_from_NoDup.
      * exact Hemp.
      * intros msg H. discriminate.
    + eexists getRealCompanies, _. split; [reflexivity |].
      split; [apply getRealCompanies_unique |].
      split; [intros _; apply getRealCompanies_nonneg |].
      intros msg H. discriminate.
Qed.

(** ** The routes, one equation each *)

Lemma get_companies_fresh (env : Env) (w : World) (l : list Company) :
  cachedCompanies w = Some l -> fresh w = true ->
  get_companies env w
  = (Returns (CompaniesBody l (List.length l) "cache" None), w).
Proof.
  unfold fresh, get_companies, try_catch, bind, Date_now,
    read_cachedCompanies, read_lastFetchTime.
  intros Hc Hf. rewrite Hc in *. simpl. rewrite Hf. reflexivity.
Qed.

Lemma get_companies_stale (env : Env) (w : World) :
  fresh w = false ->
  exists l d,
    get_companies env w
    = (Returns (CompaniesBody l (List.length l) "api"
                  (Some (clock w + fst (axios_reply env (requests w))))),
       mkWorld (Some l) (Some (clock w))
               (clock w + fst (axios_reply env (requests w)))
               (S (requests w)) d)
    /\ unique_ids l
    /\ ((forall k, (0 <= random_draw env k)%Q) -> employees_nonneg l)
    /\ (forall msg,
          snd (axios_reply env (requests w)) = Rejects msg ->
          l = getRealCompanies /\ d = draws w).
Proof.
  intros Hf.
  destruct (fetchCompanies_runs env w) as [l [d [Hrun Hrest]]].
  exists l, d. split; [| exact Hrest].
  unfold fresh in Hf.
  unfold get_companies, try_catch, bind, Date_now, read_cachedCompanies,
    read_lastFetchTime. simpl.
  destruct (cachedCompanies w) as [old |] eqn:Hc.
  - rewrite Hf. rewrite Hrun. reflexivity.
  - rewrite Hrun. reflexivity.
Qed.

Lemma post_refresh_runs (env : Env) (w : World) :
  exists l d,
    post_refresh env w
    = (Returns (RefreshBody "Data refreshed successfully" l (List.length l)),
       mkWorld (Some l)
               (Some (clock w + fst (axios_reply env (requests w))))
               (clock w + fst (axios_reply env (requests w)))
               (S (requests w)) d)
    /\ unique_ids l
    /\ ((forall k, (0 <= random_draw env k)%Q) -> employees_nonneg l)
    /\ (forall msg,
          snd (axios_reply env (requests w)) = Rejects msg ->
          l = getRealCompanies /\ d = draws w).
Proof.
  destruct (fetchCompanies_runs env w) as [l [d [Hrun Hrest]]].
  exists l, d. split; [| exact Hrest].
  unfold post_refresh, try_catch, bind. rewrite Hrun. reflexivity.
Qed.

Lemma get_company_cached (env : Env) (w : World) (id_param : string)
      (l : list Company) :
  cachedCompanies w = Some l ->
  get_company id_param env w = (Returns (lookup_reply id_param l), w).
Proof.
  intros Hc.
  unfold get_company, lookup_reply, try_catch, bind, read_cachedCompanies, ret.
  rewrite Hc. simpl. rewrite Hc.
  destruct (List.find _ l); reflexivity.
Qed.

Lemma get_company_uncached (env : Env) (w : World) (id_param : string) :
  cachedCompanies w = None ->
  exists l d,
    get_company id_param env w
    = (Returns (lookup_reply id_param l),
       mkWorld (Some l) (lastFetchTime w)
               (clock w + fst (axios_reply env (requests w)))
               (S (requests w)) d)
    /\ unique_ids l
    /\ ((forall k, (0 <= random_draw env k)%Q) -> employees_nonneg l)
    /\ (forall msg,
          snd (axios_reply env (requests w)) = Rejects msg ->
          l = getRealCompanies /\ d = draws w).
Proof.
  intros Hc.
  destruct (fetchCompanies_runs env w) as [l [d [Hrun Hrest]]].
  exists l, d. split; [| exact Hrest].
  unfold get_company, lookup_reply, try_catch, bind, read_cachedCompanies.
  rewrite Hc. simpl. rewrite Hrun. simpl.
  destruct (List.find _ l); reflexivity.
Qed.

(** ** C6: a fresh snapshot is served from the cache *)

(** C6. With a snapshot [l] cached and stamped at [t] (a stamp the truthiness
    test accepts, that is, not 0), and less than [CACHE_DURATION]
    milliseconds gone since, [GET /api/companies] answers with [l] tagged
    [cache], issues no request to the registry, and leaves the world, the
    cached list and the stamp included, as it was. *)
Theorem fresh_read_served_from_cache
        (env : Env) (w : World) (l : list Company) (t : Z)
        (Hcache : cachedCompanies w = Some l)
        (Hstamp : lastFetchTime w = Some t)
        (Hset : t <> 0)
        (Hwindow : clock w - t < CACHE_DURATION) :
  fst (get_companies env w)
  = Returns (CompaniesBody l (List.length l) "cache" None)
  /\ requests (snd (get_companies env w)) = requests w
  /\ cachedCompanies (snd (get_companies env w)) = Some l
  /\ lastFetchTime (snd (get_companies env w)) = Some t
  /\ snd (get_companies env w) = w.
Proof.
  assert (Hf : fresh w = true).
  { unfold fresh. rewrite Hcache, Hstamp. simpl.
    apply andb_true_iff. split.
    - apply negb_true_iff. now apply Z.eqb_neq.
    - now apply Z.ltb_lt. }
  rewrite (get_companies_fresh env w l Hcache Hf). simpl. auto.
Qed.

(** ** C7: the registry fails *)

(** C7, as the code has it. When the request to the registry is rejected,
    the fetch returns the curated list, which has 20 records, and throws
    nothing; [POST /api/companies/refresh] answers 200 with that list,
    stores it, and its body has no [source] field; [GET /api/companies],
    unless it serves a fresh cache, answers 200 with that list tagged
    [api] and stores it. *)
Theorem failed_fetch_serves_curated_list
        (env : Env) (w : World) (msg : string)
        (Hfail : snd (axios_reply env (requests w)) = Rejects msg) :
  List.length getRealCompanies = 20%nat
  /\ fst (fetchCompanies env w) = Returns getRealCompanies
  /\ (fst (post_refresh env w)
      = Returns (RefreshBody "Data refreshed successfully"
                             getRealCompanies 20)
      /\ cachedCompanies (snd (post_refresh env w)) = Some getRealCompanies
      /\ source_of (RefreshBody "Data refreshed successfully"
                                getRealCompanies 20) = None)
  /\ (fresh w = true
      \/ (fst (get_companies env w)
          = Returns (CompaniesBody getRealCompanies 20 "api"
                       (Some (clock w + fst (axios_reply env (requests w)))))
          /\ cachedCompanies (snd (get_companies env w))
             = Some getRealCompanies)).
Proof.
  split; [reflexivity |]. split; [| split].
  - destruct (fetchCompanies_runs env w) as [l [d [Hrun [_ [_ Hrej]]]]].
    destruct (Hrej msg Hfail) as [-> _]. now rewrite Hrun.
  - destruct (post_refresh_runs env w) as [l [d [Hrun [_ [_ Hrej]]]]].
    destruct (Hrej msg Hfail) as [-> _]. rewrite Hrun. simpl. auto.
  - destruct (fresh w) eqn:Hf; [now left | right].
    destruct (get_companies_stale env w Hf) as [l [d [Hrun [_ [_ Hrej]]]]].
    destruct (Hrej msg Hfail) as [-> _]. rewrite Hrun. simpl. auto.
Qed.

(** ** C9: the invariants of every snapshot *)

Lemma serve_keeps_snapshot_ok (env : Env) (r : Request) (w : World) :
  (forall k, (0 <= random_draw env k)%Q) ->
  snapshot_ok w -> snapshot_ok (snd (serve r env w)).
Proof.
  intros Hrand Hok. destruct r as [| id_param |]; simpl.
  - destruct (fresh w) eqn:Hf.
    + assert (Hc : exists l, cachedCompanies w = Some l).
      { unfold fresh in Hf. destruct (cachedCompanies w) as [l |];
          [now exists l | discriminate]. }
      destruct Hc as [l Hc]. now rewrite (get_companies_fresh env w l Hc Hf).
    + destruct (get_companies_stale env w Hf) as [l [d [Hrun [Hu [He _]]]]].
      rewrite Hrun. intros l' Hl'. simpl in Hl'. injection Hl' as <-. auto.
  - destruct (cachedCompanies w) as [l |] eqn:Hc.
    + now rewrite (get_company_cached env w id_param l Hc).
    + destruct (get_company_uncached env w id_param Hc)
        as [l [d [Hrun [Hu [He _]]]]].
      rewrite Hrun. intros l' Hl'. simpl in Hl'. injection Hl' as <-. auto.
  - destruct (post_refresh_runs env w) as [l [d [Hrun [Hu [He _]]]]].
    rewrite Hrun. intros l' Hl'. simpl in Hl'. injection Hl' as <-. auto.
Qed.

Lemma run_keeps_snapshot_ok (env : Env) (rs : list Request) :
  (forall k, (0 <= random_draw env k)%Q) ->
  forall w, snapshot_ok w -> snapshot_ok (run env rs w).
Proof.
  intros Hrand. induction rs as [|r rs IH]; intros w Hok; simpl;
    [assumption |].
  apply IH. now apply serve_keeps_snapshot_ok.
Qed.

(** C9. Whatever requests the server has answered since it started, and
    whatever the registry replied, the cached snapshot has pairwise distinct
    ids and no negative head count, given that [Math.random()] is never
    negative; and every fetch returns such a list, be it mapped from the
    registry or the curated one. *)
Theorem snapshots_keep_invariants
        (env : Env) (now : Z) (rs : list Request) (l : list Company)
        (w : World)
        (Hrand : forall k, (0 <= random_draw env k)%Q)
        (Hsnap : cachedCompanies (run env rs (boot now)) = Some l) :
  (unique_ids l /\ employees_nonneg l)
  /\ (exists l', fst (fetchCompanies env w) = Returns l'
                 /\ unique_ids l' /\ employees_nonneg l')
  /\ (unique_ids getRealCompanies /\ employees_nonneg getRealCompanies).
Proof.
  split; [| split].
  - apply (run_keeps_snapshot_ok env rs Hrand (boot now)); [| exact Hsnap].
    intros l' H. discriminate.
  - destruct (fetchCompanies_runs env w) as [l' [d [Hrun [Hu [He _]]]]].
    exists l'. rewrite Hrun. auto.
  - split; [apply getRealCompanies_unique | apply getRealCompanies_nonneg].
Qed.

(** ** C10: an id that matches nothing *)

Lemma get_company_snapshot (env : Env) (w : World) (id_param : string) :
  exists l,
    cachedCompanies (snd (get_company id_param env w)) = Some l
    /\ fst (get_company id_param env w) = Returns (lookup_reply id_param l).
Proof.
  destruct (cachedCompanies w) as [l |] eqn:Hc.
  - exists l. rewrite (get_company_cached env w id_param l Hc). auto.
  - destruct (get_company_uncached env w id_param Hc) as [l [d [Hrun _]]].
    exists l. rewrite Hrun. auto.
Qed.

(** A parameter whose first character after the white space is neither a
    sign nor a decimal digit parses to [NaN]. *)
Lemma parseInt_not_numeric (s : string) (c : ascii) (rest : string) :
  skip_space s = String c rest ->
  c <> "-"%char -> c <> "+"%char -> digit_value 10 c = None ->
  parseInt s = None.
Proof.
  intros Hs Hm Hp Hd. unfold parseInt. rewrite Hs.
  destruct c as [[] [] [] [] [] [] [] []]; try congruence;
    cbn in Hd |- *; try reflexivity; try discriminate.
Qed.

(** C10. Once the lookup has its snapshot [l], the one it found or the one
    its own fetch produced, a parameter whose parsed value equals no id in
    [l] gets the 404 body ["Company not found"], not a 500. *)
Theorem unmatched_id_is_not_found
        (env : Env) (w : World) (id_param : string) (l : list Company)
        (Hsnap : cachedCompanies (snd (get_company id_param env w)) = Some l)
        (Hmiss : forall c, In c l -> Some (id c) <> parseInt id_param) :
  fst (get_company id_param env w)
  = Returns (NotFoundBody "Company not found")
  /\ status (NotFoundBody "Company not found") = 404.
Proof.
  split; [| reflexivity].
  destruct (get_company_snapshot env w id_param) as [l' [Hl' Hr]].
  rewrite Hsnap in Hl'. injection Hl' as <-. rewrite Hr.
  unfold lookup_reply.
  destruct (List.find _ l) as [c |] eqn:Hfind; [| reflexivity].
  apply find_some in Hfind. destruct Hfind as [Hin Heq].
  exfalso. apply (Hmiss c Hin).
  unfold strict_eq in Heq. destruct (parseInt id_param) as [z |];
    [| discriminate].
  apply Z.eqb_eq in Heq. now subst.
Qed.

(** ** C8: which clock reading stamps the snapshot *)

(** Both refreshing routes replace the snapshot, whatever was there.  The
    manual refresh stamps it with the clock as read once the fetch is over;
    the stale read stamps it with [currentTime], read before the fetch. *)
Lemma refresh_stamps (env : Env) (w : World) :
  (exists l,
      cachedCompanies (snd (post_refresh env w)) = Some l
      /\ fst (post_refresh env w)
         = Returns (RefreshBody "Data refreshed successfully" l
                                (List.length l)))
  /\ lastFetchTime (snd (post_refresh env w))
     = Some (clock (snd (post_refresh env w)))
  /\ (fresh w = true
      \/ ((exists l stamp,
              cachedCompanies (snd (get_companies env w)) = Some l
              /\ fst (get_companies env w)
                 = Returns (CompaniesBody l (List.length l) "api" stamp))
          /\ lastFetchTime (snd (get_companies env w)) = Some (clock w)
          /\ clock (snd (get_companies env w))
             = clock w + fst (axios_reply env (requests w)))).
Proof.
  split; [| split].
  - destruct (post_refresh_runs env w) as [l [d [Hrun _]]].
    exists l. rewrite Hrun. auto.
  - destruct (post_refresh_runs env w) as [l [d [Hrun _]]].
    now rewrite Hrun.
  - destruct (fresh w) eqn:Hf; [now left | right].
    destruct (get_companies_stale env w Hf) as [l [d [Hrun _]]].
    rewrite Hrun. simpl. split; [| auto]. now exists l, (Some (clock w + fst (axios_reply env (requests w)))).
Qed.

(** C8, at a failing input. The server has just started at clock 1000 and
    the registry times out after 5000 ms.  [GET /api/companies] sends its
    reply stamped 6000, the time the fetch was over, yet stores 1000, the
    time the request came in, as [lastFetchTime]; on the same world
    [POST /api/companies/refresh] stores 6000. *)
Theorem stale_read_stamps_request_time :
  fst (get_companies registry_down (boot 1000))
  = Returns (CompaniesBody getRealCompanies 20 "api" (Some 6000))
  /\ clock (snd (get_companies registry_down (boot 1000))) = 6000
  /\ lastFetchTime (snd (get_companies registry_down (boot 1000)))
     = Some 1000
  /\ lastFetchTime (snd (post_refresh registry_down (boot 1000)))
     = Some 6000.
Proof. repeat split. Qed.

(** ** Where the specification and the code part ways *)

(** C3 as worded fails. Twenty records make four pages; asked for page 5
    (or page 0) the paginate step serves nothing, while every page within
    [1, 4], the clamped page 4 among them, has records: the slice was not
    computed from any page in range. *)
Lemma page_beyond_last_is_not_clamped :
  totalPages getRealCompanies = 4
  /\ paginatedCompanies getRealCompanies 5 = []
  /\ paginatedCompanies getRealCompanies 0 = []
  /\ clamp_page (totalPages getRealCompanies) 5 = 4
  /\ paginatedCompanies getRealCompanies 4 <> []
  /\ ~ (exists p,
          1 <= p <= Z.max 1 (totalPages getRealCompanies)
          /\ paginatedCompanies getRealCompanies 5
             = paginatedCompanies getRealCompanies p).
Proof.
  repeat split; try reflexivity; try discriminate.
  intros [p [Hp E]]. change (totalPages getRealCompanies) with 4 in Hp.
  assert (Hcases : p = 1 \/ p = 2 \/ p = 3 \/ p = 4) by lia.
  destruct Hcases as [-> | [-> | [-> | ->]]]; discriminate E.
Qed.

(** C5 as worded fails. On page 2, a click on the Employees header changes
    the sort column and a click on the Name header flips the direction; the
    page stays 2 both times. *)
Lemma sort_click_keeps_page :
  sortBy (handleSort K_employees (mkViewState "" "" "" K_name asc 2))
  <> sortBy (mkViewState "" "" "" K_name asc 2)
  /\ currentPage (handleSort K_employees (mkViewState "" "" "" K_name asc 2))
     <> 1
  /\ sortOrder (handleSort K_name (mkViewState "" "" "" K_name asc 2))
     <> sortOrder (mkViewState "" "" "" K_name asc 2)
  /\ currentPage (handleSort K_name (mkViewState "" "" "" K_name asc 2))
     <> 1.
Proof. repeat split; discriminate. Qed.

(** C7 as worded fails. With the registry down, both refreshing routes
    answer with the curated list, but [GET /api/companies] tags it [api]
    and [POST /api/companies/refresh] tags it with nothing: no response
    carries the tag [fallback]. *)
Lemma fallback_is_not_tagged_fallback :
  fst (get_companies registry_down (boot 1000))
  = Returns (CompaniesBody getRealCompanies 20 "api" (Some 6000))
  /\ source_of (CompaniesBody getRealCompanies 20 "api" (Some 6000))
     <> Some "fallback"
  /\ fst (post_refresh registry_down (boot 1000))
     = Returns (RefreshBody "Data refreshed successfully" getRealCompanies 20)
  /\ source_of (RefreshBody "Data refreshed successfully" getRealCompanies 20)
     <> Some "fallback".
Proof. repeat split; discriminate. Qed.

(** ** The theorems at work on sample inputs *)

(** The end-to-end example of the specification: Acme (100) then Zenith
    (50), descending by head count. *)
Lemma sort_respects_direction_witness :
  adjacent Acme Zenith (filteredCompanies [Acme; Zenith] example_view)
  /\ (Permutation (filtered [Acme; Zenith] example_view)
                  (filteredCompanies [Acme; Zenith] example_view)
      /\ respects desc (compare_key K_employees Acme Zenith)
      /\ (compare_key K_employees Acme Zenith = Eq
          \/ (before Zenith Acme
                 (filteredCompanies [Acme; Zenith]
                                    (with_order asc example_view))
              /\ ~ before Acme Zenith
                   (filteredCompanies [Acme; Zenith]
                                      (with_order asc example_view))))).
Proof.
  assert (H : adjacent Acme Zenith
                (filteredCompanies [Acme; Zenith] example_view)).
  { exists [], []. reflexivity. }
  split; [exact H |].
  exact (sort_respects_direction [Acme; Zenith] example_view Acme Zenith H).
Defined.

(** Page 2 of 4 over the curated list. *)
Lemma paginate_slices_requested_page_witness :
  (1 <= 2 <= totalPages getRealCompanies)
  /\ (0 <= 3 < totalPages getRealCompanies)
  /\ totalPages getRealCompanies < 5
  /\ paginatedCompanies getRealCompanies 2
     = firstn 6 (skipn 6 getRealCompanies)
  /\ paginatedCompanies getRealCompanies 5 = [].
Proof.
  assert (H1 : 1 <= 2 <= totalPages getRealCompanies)
    by (change (totalPages getRealCompanies) with 4; lia).
  assert (H2 : 0 <= 3 < totalPages getRealCompanies)
    by (change (totalPages getRealCompanies) with 4; lia).
  assert (H3 : totalPages getRealCompanies < 5)
    by (change (totalPages getRealCompanies) with 4; lia).
  pose proof (paginate_slices_requested_page getRealCompanies
                (mkViewState "" "" "" K_name asc 2) 3 5 H1 H2 H3)
    as [Hslice [_ [_ [Hnone _]]]].
  split; [exact H1 |]. split; [exact H2 |]. split; [exact H3 |].
  split; [exact Hslice | exact Hnone].
Defined.

(** A second read one second after the first. *)
Lemma fresh_read_served_from_cache_witness :
  cachedCompanies warm_world = Some getRealCompanies
  /\ lastFetchTime warm_world = Some 1000
  /\ 1000 <> 0
  /\ clock warm_world - 1000 < CACHE_DURATION
  /\ fst (get_companies registry_down warm_world)
     = Returns (CompaniesBody getRealCompanies 20 "cache" None)
  /\ requests (snd (get_companies registry_down warm_world)) = 1%nat.
Proof.
  assert (H1 : cachedCompanies warm_world = Some getRealCompanies)
    by reflexivity.
  assert (H2 : lastFetchTime warm_world = Some 1000) by reflexivity.
  assert (H3 : 1000 <> 0) by lia.
  assert (H4 : clock warm_world - 1000 < CACHE_DURATION) by reflexivity.
  pose proof (fresh_read_served_from_cache registry_down warm_world
                getRealCompanies 1000 H1 H2 H3 H4) as [Hr [Hq _]].
  split; [exact H1 |]. split; [exact H2 |]. split; [exact H3 |].
  split; [exact H4 |]. split; [exact Hr | exact Hq].
Defined.

(** The registry times out on a server that has just started. *)
Lemma failed_fetch_serves_curated_list_witness :
  snd (axios_reply registry_down (requests (boot 1000)))
  = Rejects "timeout of 5000ms exceeded"
  /\ fst (fetchCompanies registry_down (boot 1000))
     = Returns getRealCompanies.
Proof.
  assert (H : snd (axios_reply registry_down (requests (boot 1000)))
              = Rejects "timeout of 5000ms exceeded") by reflexivity.
  pose proof (failed_fetch_serves_curated_list registry_down (boot 1000)
                "timeout of 5000ms exceeded" H) as [_ [Hf _]].
  split; [exact H | exact Hf].
Defined.

(** A read and then a manual refresh against a registry that answers. *)
Lemma snapshots_keep_invariants_witness :
  (forall k, (0 <= random_draw registry_up k)%Q)
  /\ cachedCompanies (run registry_up [GetCompanies; PostRefresh] (boot 1000))
     = Some registry_up_snapshot
  /\ unique_ids registry_up_snapshot
  /\ employees_nonneg registry_up_snapshot.
Proof.
  assert (H1 : forall k, (0 <= random_draw registry_up k)%Q)
    by (intros k; simpl; unfold Qle; simpl; lia).
  assert (H2 : cachedCompanies
                 (run registry_up [GetCompanies; PostRefresh] (boot 1000))
               = Some registry_up_snapshot) by reflexivity.
  pose proof (snapshots_keep_invariants registry_up 1000
                [GetCompanies; PostRefresh] registry_up_snapshot (boot 1000)
                H1 H2) as [[Hu He] _].
  split; [exact H1 |]. split; [exact H2 |]. split; [exact Hu | exact He].
Defined.

(** [/api/companies/abc]: the parameter parses to [NaN]. *)
Lemma unmatched_id_is_not_found_witness :
  parseInt "abc" = None
  /\ cachedCompanies (snd (get_company "abc" registry_down (boot 1000)))
     = Some getRealCompanies
  /\ (forall c, In c getRealCompanies -> Some (id c) <> parseInt "abc")
  /\ fst (get_company "abc" registry_down (boot 1000))
     = Returns (NotFoundBody "Company not found").
Proof.
  assert (H1 : cachedCompanies
                 (snd (get_company "abc" registry_down (boot 1000)))
               = Some getRealCompanies) by reflexivity.
  assert (H2 : forall c, In c getRealCompanies ->
                         Some (id c) <> parseInt "abc")
    by (intros c _; discriminate).
  pose proof (unmatched_id_is_not_found registry_down (boot 1000) "abc"
                getRealCompanies H1 H2) as [Hr _].
  split; [reflexivity |]. split; [exact H1 |]. split; [exact H2 | exact Hr].
Defined.

(** ** The model on small inputs *)

(** The end-to-end example of the specification. *)
Example end_to_end :
  filteredCompanies [Acme; Zenith] example_view = [Acme; Zenith]
  /\ totalPages (filteredCompanies [Acme; Zenith] example_view) = 1
  /\ paginatedCompanies (filteredCompanies [Acme; Zenith] example_view) 1
     = [Acme; Zenith].
Proof. repeat split. Qed.

(** Search is case-insensitive and looks at name and location only. *)
Example search_santa :
  List.map id (filtered getRealCompanies
                 (mkViewState "SANTA" "" "" K_name asc 1)) = [13; 17]
  /\ filtered getRealCompanies (mkViewState "retail" "" "" K_name asc 1) = [].
Proof. repeat split. Qed.

(** Two records with the same location leave the sort in the reverse of
    their input order, whichever the direction: the comparator answers -1
    on a tie. *)
Example ties_in_both_directions :
  List.map id (filteredCompanies getRealCompanies
                 (mkViewState "santa" "" "" K_location asc 1)) = [17; 13]
  /\ List.map id (filteredCompanies getRealCompanies
                    (mkViewState "santa" "" "" K_location desc 1)) = [17; 13]
  /\ sort_cmp K_location asc Acme Zenith = -1
  /\ sort_cmp K_location asc Zenith Acme = -1.
Proof. repeat split. Qed.

(** A negative page counts from the end of the array. *)
Example negative_page :
  List.map id (paginatedCompanies getRealCompanies (-1))
  = [9; 10; 11; 12; 13; 14].
Proof. reflexivity. Qed.

Example parseInt_samples :
  parseInt "7" = Some 7
  /\ parseInt "  12abc" = Some 12
  /\ parseInt "-0x1F" = Some (-31)
  /\ parseInt "abc" = None
  /\ parseInt "" = None
  /\ parseInt "0x" = None.
Proof. repeat split. Qed.

(** A stamp exactly one hour old is stale: the test is strict. *)
Example one_hour_old_is_stale :
  fresh (mkWorld (Some getRealCompanies) (Some 1000) 3601000 1 0) = false
  /\ fresh (mkWorld (Some getRealCompanies) (Some 1000) 3600999 1 0) = true
  /\ fresh (mkWorld (Some []) (Some 1000) 2000 1 0) = true.
Proof. repeat split. Qed.

(** The lookup's own fetch fills the cache but sets no stamp, so the next
    read of the list fetches again. *)
Example lookup_sets_no_stamp :
  lastFetchTime (snd (get_company "3" registry_down (boot 1000))) = None
  /\ fst (get_company "3" registry_down (boot 1000))
     = Returns (CompanyBody (mkCompany 3 "Amazon.com Inc." "Seattle, WA"
                                       "Retail" 1541000 1994 "AMZN"))
  /\ requests (run registry_down [GetCompany "3"; GetCompanies] (boot 1000))
     = 2%nat.
Proof. repeat split. Qed.

(** * Further properties of the view model *)

(** ** Searching *)


Lemma lower_unit_idem (c : ascii) :
  JS.lower_unit (JS.lower_unit c) = JS.lower_unit c.
Proof. destruct c as [[] [] [] [] [] [] [] []]; reflexivity. Qed.

Lemma toLowerCase_idem (s : string) :
  JS.toLowerCase (JS.toLowerCase s) = JS.toLowerCase s.
Proof.
  induction s as [|a s IH]; simpl; [reflexivity |].
  now rewrite lower_unit_idem, IH.
Qed.









(** The search does not see the case of the term: a term and its lower
    case select the same records, in the same order. *)
Theorem search_ignores_case_of_term
        (companies : list Company) (vs : ViewState) (t : string) :
  filtered companies (with_search (JS.toLowerCase t) vs)
  = filtered companies (with_search t vs)
  /\ filteredCompanies companies (with_search (JS.toLowerCase t) vs)
     = filteredCompanies companies (with_search t vs).
Proof.
  assert (H : filtered companies (with_search (JS.toLowerCase t) vs)
              = filtered companies (with_search t vs)).
  { unfold filtered. apply filter_ext. intros c.
    unfold keep, matchesSearch, matchesLocation, matchesIndustry. simpl.
    now rewrite toLowerCase_idem. }
  split; [exact H |]. unfold filteredCompanies. now rewrite H.
Qed.

(** ** Reset and the sort toggle *)

Lemma filter_all {A : Type} (f : A -> bool) (l : list A) :
  (forall x, f x = true) -> List.filter f l = l.
Proof.
  intros H. induction l as [|x l IH]; simpl; [reflexivity |].
  now rewrite H, IH.
Qed.

(** With the three filters empty nothing is filtered out, whatever the
    sort: the filtered list is the input and the view a rearrangement of
    it; this is the state Reset Filters leads to, on page 1. *)
Theorem empty_filters_show_all
        (companies : list Company) (k : SortKey) (o : SortOrder) (page : Z)
        (vs : ViewState) :
  filtered companies (mkViewState "" "" "" k o page) = companies
  /\ Permutation companies
       (filteredCompanies companies (mkViewState "" "" "" k o page))
  /\ filtered companies (resetFilters vs) = companies
  /\ Permutation companies (filteredCompanies companies (resetFilters vs))
  /\ resetFilters vs = mkViewState "" "" "" K_name asc 1.
Proof.
  assert (H : forall k o page,
             filtered companies (mkViewState "" "" "" k o page) = companies).
  { intros k' o' page'. unfold filtered. apply filter_all. intros c.
    unfold keep, matchesSearch, matchesLocation, matchesIndustry. simpl.
    now rewrite includes_empty. }
  split; [apply H |]. split.
  - rewrite <- (H k o page) at 1. apply filteredCompanies_perm.
  - split; [apply H |]. split; [| reflexivity].
    unfold resetFilters. rewrite <- (H K_name asc 1) at 1.
    apply filteredCompanies_perm.
Qed.

Lemma SortKey_eqb_refl (k : SortKey) : SortKey_eqb k k = true.
Proof. destruct k; reflexivity. Qed.

Lemma SortKey_eqb_eq (a b : SortKey) : SortKey_eqb a b = true <-> a = b.
Proof. destruct a, b; simpl; split; congruence. Qed.

(** A second click on the header of the current sort column undoes the
    first, and on any header the third click does what the first did; a
    click on another header always starts ascending. *)
Theorem sort_header_toggles (fld : SortKey) (vs : ViewState) :
  handleSort (sortBy vs) (handleSort (sortBy vs) vs) = vs
  /\ handleSort fld (handleSort fld (handleSort fld vs)) = handleSort fld vs
  /\ (SortKey_eqb (sortBy vs) fld = true
      \/ sortOrder (handleSort fld vs) = asc).
Proof.
  destruct vs as [s l i k o p]. unfold handleSort. simpl.
  split; [| split].
  - rewrite SortKey_eqb_refl. simpl. rewrite SortKey_eqb_refl. simpl.
    now destruct o.
  - destruct (SortKey_eqb k fld) eqn:E; simpl.
    + rewrite E. simpl. rewrite E. simpl. now destruct o.
    + rewrite !SortKey_eqb_refl. reflexivity.
  - destruct (SortKey_eqb k fld); simpl; auto.
Qed.

(** A click on a column header changes the order of the rows and nothing
    else: the same records match, so their number and the number of pages
    stay, and a page that was within range still is. *)
Theorem sort_keeps_matches
        (companies : list Company) (fld : SortKey) (vs : ViewState) :
  filtered companies (handleSort fld vs) = filtered companies vs
  /\ Permutation (filteredCompanies companies vs)
                 (filteredCompanies companies (handleSort fld vs))
  /\ totalPages (filteredCompanies companies (handleSort fld vs))
     = totalPages (filteredCompanies companies vs)
  /\ currentPage (handleSort fld vs) = currentPage vs.
Proof.
  assert (H : filtered companies (handleSort fld vs) = filtered companies vs).
  { unfold handleSort. destruct (SortKey_eqb (sortBy vs) fld); reflexivity. }
  assert (P : Permutation (filteredCompanies companies vs)
                          (filteredCompanies companies (handleSort fld vs))).
  { rewrite <- (filteredCompanies_perm companies vs).
    rewrite <- H. apply filteredCompanies_perm. }
  split; [exact H |]. split; [exact P |]. split.
  - rewrite !totalPages_eq. now rewrite (Permutation_length P).
  - unfold handleSort. destruct (SortKey_eqb (sortBy vs) fld); reflexivity.
Qed.

(** ** The pagination bar *)

(** Between the first and the last page, Next then Previous and Previous
    then Next both come back to the page they left. *)
Theorem next_previous_round_trip
        (total : Z) (vs : ViewState)
        (Hpage : 1 < currentPage vs < total) :
  onPrevious (onNext total vs) = vs
  /\ onNext total (onPrevious vs) = vs
  /\ previousDisabled vs = false
  /\ nextDisabled total vs = false.
Proof.
  destruct vs as [s l i k o p]. simpl in Hpage.
  unfold onPrevious, onNext, previousDisabled, nextDisabled. simpl.
  repeat split.
  - f_equal. lia.
  - f_equal. lia.
  - apply Z.eqb_neq. lia.
  - apply Z.eqb_neq. lia.
Qed.

(** At the ends the two buttons are disabled, and would change nothing if
    they were not: Previous on page 1 stays on page 1, Next on the last
    page stays on the last page. *)
Theorem pagination_ends
        (s l i : string) (k : SortKey) (o : SortOrder) (total : Z) :
  previousDisabled (mkViewState s l i k o 1) = true
  /\ onPrevious (mkViewState s l i k o 1) = mkViewState s l i k o 1
  /\ nextDisabled total (mkViewState s l i k o total) = true
  /\ onNext total (mkViewState s l i k o total) = mkViewState s l i k o total.
Proof.
  unfold previousDisabled, nextDisabled, onPrevious, onNext. simpl.
  rewrite Z.eqb_refl. repeat split. f_equal. lia.
Qed.

(** ** Slices and pages *)

Lemma In_firstn {A : Type} (x : A) (n : nat) (l : list A) :
  In x (firstn n l) -> In x l.
Proof.
  intros H. rewrite <- (firstn_skipn n l). apply in_or_app. now left.
Qed.

Lemma In_skipn {A : Type} (x : A) (n : nat) (l : list A) :
  In x (skipn n l) -> In x l.
Proof.
  intros H. rewrite <- (firstn_skipn n l). apply in_or_app. now right.
Qed.

Lemma slice_In {A : Type} (x : A) (l : list A) (start stop : Z) :
  In x (JS.slice l start stop) -> In x l.
Proof. unfold JS.slice. intros H. eapply In_skipn, In_firstn, H. Qed.

Lemma slice_length_le {A : Type} (l : list A) (start stop : Z) :
  (List.length (JS.slice l start stop) <= List.length l)%nat.
Proof.
  unfold JS.slice. rewrite length_firstn, length_skipn. lia.
Qed.

Lemma slice_from_zero {A : Type} (l : list A) (n : nat) :
  JS.slice l 0 (Z.of_nat n) = firstn n l.
Proof.
  unfold JS.slice. simpl.
  destruct (Z.of_nat n <? 0) eqn:E; [apply Z.ltb_lt in E; lia |].
  replace (Z.min 0 (Z.of_nat (List.length l))) with 0 by lia.
  rewrite Z.sub_0_r. simpl.
  destruct (Nat.le_gt_cases n (List.length l)) as [H | H].
  - f_equal. lia.
  - rewrite !firstn_all2; [reflexivity | lia | lia].
Qed.

Lemma paginated_length_le (fc : list Company) (page : Z) :
  (List.length (paginatedCompanies fc page) <= 6)%nat.
Proof.
  unfold paginatedCompanies, JS.slice, itemsPerPage.
  rewrite length_firstn.
  destruct ((page - 1) * 6 <? 0) eqn:E1; destruct (page * 6 <? 0) eqn:E2;
    try apply Z.ltb_lt in E1; try apply Z.ltb_lt in E2;
    try apply Z.ltb_ge in E1; try apply Z.ltb_ge in E2; lia.
Qed.

(** No page has more than six records, whatever page is asked for; a page
    within [1, totalPages] has six, or on the last page what is left over,
    and never none. *)
Theorem page_sizes (fc : list Company) (page other : Z)
        (Hpage : 1 <= page <= totalPages fc) :
  (List.length (paginatedCompanies fc other) <= 6)%nat
  /\ Z.of_nat (List.length (paginatedCompanies fc page))
     = Z.min 6 (Z.of_nat (List.length fc) - 6 * (page - 1))
  /\ (1 <= List.length (paginatedCompanies fc page))%nat.
Proof.
  split; [apply paginated_length_le |].
  destruct (paginated_within fc page Hpage) as [Hp Hne].
  pose proof (totalPages_bounds fc) as Hb. unfold itemsPerPage in Hb.
  split.
  - rewrite Hp, length_firstn, length_skipn. lia.
  - destruct (paginatedCompanies fc page); [congruence | simpl; lia].
Qed.

Lemma page_sizes_witness :
  (1 <= 4 <= totalPages Server.getRealCompanies)
  /\ List.length (paginatedCompanies Server.getRealCompanies 4) = 2%nat.
Proof.
  assert (H : 1 <= 4 <= totalPages Server.getRealCompanies)
    by (change (totalPages Server.getRealCompanies) with 4; lia).
  pose proof (page_sizes Server.getRealCompanies 4 0 H) as [_ [Hlen _]].
  split; [exact H |].
  change (List.length Server.getRealCompanies) with 20%nat in Hlen.
  apply Nat2Z.inj. rewrite Hlen. reflexivity.
Defined.

(** Once loaded without error the component shows the directory: at most
    six rows and no more than there are matches, every row a record of the
    loaded list that passes the filters; the pagination bar exactly when
    more than six records match, the "No companies found" panel exactly
    when none does. *)
Theorem directory_screen (st : App.State)
        (Hloaded : App.loading st = false)
        (Hfine : App.error st = None) :
  exists rows bar panel,
    App.render st
    = App.Directory rows (List.length rows)
        (List.length (filteredCompanies (App.companies st) (App.view st)))
        bar panel
    /\ (List.length rows <= 6)%nat
    /\ (List.length rows
        <= List.length (filteredCompanies (App.companies st) (App.view st)))%nat
    /\ (forall c, In c rows ->
                  In c (App.companies st) /\ kept_by_spec (App.view st) c)
    /\ (bar = true
        <-> (6 < List.length
                   (filteredCompanies (App.companies st) (App.view st)))%nat)
    /\ (panel = true
        <-> filteredCompanies (App.companies st) (App.view st) = []).
Proof.
  unfold App.render. rewrite Hloaded, Hfine.
  set (fc := filteredCompanies (App.companies st) (App.view st)).
  eexists _, _, _. split; [reflexivity |].
  split; [apply paginated_length_le |].
  split; [apply slice_length_le |].
  split; [| split].
  - intros c Hc. apply slice_In in Hc.
    apply (Permutation_in c
             (Permutation_sym
                (filteredCompanies_perm (App.companies st) (App.view st))))
      in Hc.
    unfold filtered in Hc. apply filter_In in Hc.
    now rewrite keep_spec in Hc.
  - rewrite Z.ltb_lt, totalPages_eq.
    generalize (List.length fc). intros n.
    split; intros H; Z.to_euclidean_division_equations; lia.
  - rewrite Nat.eqb_eq. split; [apply length_zero_iff_nil | now intros ->].
Qed.

Lemma directory_screen_witness :
  App.loading (App.mkState [Acme; Zenith] false None example_view
                           App.table false) = false
  /\ App.error (App.mkState [Acme; Zenith] false None example_view
                            App.table false) = None
  /\ exists rows bar panel,
       App.render (App.mkState [Acme; Zenith] false None example_view
                               App.table false)
       = App.Directory rows (List.length rows) 2 bar panel.
Proof.
  split; [reflexivity |]. split; [reflexivity |].
  destruct (directory_screen
              (App.mkState [Acme; Zenith] false None example_view
                           App.table false) eq_refl eq_refl)
    as [rows [bar [panel [H _]]]].
  exists rows, bar, panel. exact H.
Defined.

(** ** The options of the two drop-downs *)

Lemma spread_Set_acc (xs seen : list string) :
  NoDup seen ->
  NoDup (fold_left (fun seen x =>
                      if existsb (String.eqb x) seen then seen
                      else seen ++ [x]) xs seen)
  /\ forall s,
       In s (fold_left (fun seen x =>
                          if existsb (String.eqb x) seen then seen
                          else seen ++ [x]) xs seen)
       <-> In s seen \/ In s xs.
Proof.
  revert seen. induction xs as [|x xs IH]; intros seen Hnd; simpl.
  - split; [exact Hnd | intros s; tauto].
  - destruct (existsb (String.eqb x) seen) eqn:E.
    + destruct (IH seen Hnd) as [H1 H2]. split; [exact H1 |].
      intros s. rewrite H2.
      apply existsb_exists in E. destruct E as [y [Hy Exy]].
      apply String.eqb_eq in Exy. subst y.
      split; [tauto | intros [H | [<- | H]]; tauto].
    + assert (Hnot : ~ In x seen).
      { intros Hin. assert (existsb (String.eqb x) seen = true).
        { apply existsb_exists. exists x. split; [exact Hin |].
          apply String.eqb_refl. }
        congruence. }
      assert (Hnd' : NoDup (seen ++ [x])).
      { apply NoDup_app; [exact Hnd | repeat constructor; auto |].
        intros a Ha [<- | []]. contradiction. }
      destruct (IH (seen ++ [x]) Hnd') as [H1 H2]. split; [exact H1 |].
      intros s. rewrite H2, in_app_iff. simpl. tauto.
Qed.

Lemma spread_Set_spec (xs : list string) :
  NoDup (JS.spread_Set xs) /\ forall s, In s (JS.spread_Set xs) <-> In s xs.
Proof.
  destruct (spread_Set_acc xs [] (NoDup_nil _)) as [H1 H2].
  split; [exact H1 |]. intros s. unfold JS.spread_Set. rewrite H2.
  simpl. tauto.
Qed.

Lemma default_cmp_below (p x : string) :
  (JS.default_cmp p x <? 0) = true -> String.compare p x <> Gt.
Proof.
  unfold JS.default_cmp, JS.str_lt.
  destruct (String.ltb p x) eqn:E.
  - apply string_ltb_lt in E. congruence.
  - destruct (String.ltb x p); discriminate.
Qed.

Lemma default_cmp_above (p x : string) :
  (JS.default_cmp p x <? 0) = false -> String.compare x p <> Gt.
Proof.
  unfold JS.default_cmp, JS.str_lt.
  destruct (String.ltb p x) eqn:E; [discriminate |]. intros _ H.
  rewrite String.compare_antisym in H.
  destruct (String.compare p x) eqn:C; try discriminate.
  apply string_ltb_lt in C. congruence.
Qed.

Lemma string_le_trans (x y z : string) :
  String.compare x y <> Gt -> String.compare y z <> Gt ->
  String.compare x z <> Gt.
Proof.
  destruct (String.compare x y) eqn:Hxy; [| | congruence]; intros _.
  - apply String.compare_eq_iff in Hxy. now subst.
  - destruct (String.compare y z) eqn:Hyz; [| | congruence]; intros _.
    + apply String.compare_eq_iff in Hyz. subst. congruence.
    + rewrite (string_compare_lt_trans x y z Hxy Hyz). discriminate.
Qed.

Lemma strictly_sorted (l : list string) :
  NoDup l -> Sorted (fun a b => String.compare a b <> Gt) l ->
  Sorted (fun a b => String.compare a b = Lt) l.
Proof.
  intros Hnd Hs. induction Hs as [|x l Hs IH Hhd]; constructor.
  - apply IH. now inversion Hnd.
  - destruct Hhd as [|y l Hxy]; constructor.
    destruct (String.compare x y) eqn:C; [| reflexivity | congruence].
    apply String.compare_eq_iff in C. subst.
    inversion Hnd as [|? ? Hnot _]. exfalso. apply Hnot. now left.
Qed.

Lemma distinct_sorted_spec (xs : list string) :
  (forall s, In s (JS.sort JS.default_cmp (JS.spread_Set xs)) <-> In s xs)
  /\ NoDup (JS.sort JS.default_cmp (JS.spread_Set xs))
  /\ Sorted (fun a b => String.compare a b = Lt)
            (JS.sort JS.default_cmp (JS.spread_Set xs)).
Proof.
  destruct (spread_Set_spec xs) as [Hnd Hin].
  pose proof (sort_perm JS.default_cmp (JS.spread_Set xs)) as P.
  assert (Hnd' : NoDup (JS.sort JS.default_cmp (JS.spread_Set xs)))
    by (eapply Permutation_NoDup; eassumption).
  split; [| split; [exact Hnd' |]].
  - intros s. rewrite <- Hin. split; apply Permutation_in;
      [now symmetry | exact P].
  - apply strictly_sorted; [exact Hnd' |].
    apply sort_sorted; [apply default_cmp_below | apply default_cmp_above].
Qed.

(** Each drop-down lists exactly the values that occur in the loaded
    records, each once, in strictly ascending code-unit order. *)
Theorem dropdown_options (companies : list Company) (s : string) :
  (In s (App.locations companies)
   <-> exists c, In c companies /\ location c = s)
  /\ NoDup (App.locations companies)
  /\ Sorted (fun a b => String.compare a b = Lt) (App.locations companies)
  /\ (In s (App.industries companies)
      <-> exists c, In c companies /\ industry c = s)
  /\ NoDup (App.industries companies)
  /\ Sorted (fun a b => String.compare a b = Lt) (App.industries companies).
Proof.
  destruct (distinct_sorted_spec (List.map location companies))
    as [L1 [L2 L3]].
  destruct (distinct_sorted_spec (List.map industry companies))
    as [I1 [I2 I3]].
  unfold App.locations, App.industries.
  repeat split; auto.
  - intros H. apply L1, in_map_iff in H. destruct H as [c [E Hc]]. eauto.
  - intros [c [Hc E]]. apply L1, in_map_iff. eauto.
  - intros H. apply I1, in_map_iff in H. destruct H as [c [E Hc]]. eauto.
  - intros [c [Hc E]]. apply I1, in_map_iff. eauto.
Qed.

(** Choosing one option of one drop-down, with the search box empty and
    the other drop-down on "All", never leaves the directory empty. *)
Theorem listed_option_has_matches
        (companies : list Company) (vs : ViewState)
        (Hsearch : searchTerm vs = "")
        (Hoption :
           (In (locationFilter vs) (App.locations companies)
            /\ industryFilter vs = "")
           \/ (locationFilter vs = ""
               /\ In (industryFilter vs) (App.industries companies))) :
  filteredCompanies companies vs <> []
  /\ 1 <= totalPages (filteredCompanies companies vs)
  /\ paginatedCompanies (filteredCompanies companies vs) 1 <> [].
Proof.
  assert (Hex : exists c, In c (filteredCompanies companies vs)).
  { destruct Hoption as [[Hl Hi] | [Hl Hi]].
    - apply (proj1 (distinct_sorted_spec (List.map location companies))),
        in_map_iff in Hl.
      destruct Hl as [c [E Hc]]. exists c.
      apply (Permutation_in c (filteredCompanies_perm companies vs)).
      apply filter_In. split; [exact Hc |]. apply keep_spec.
      unfold kept_by_spec. auto.
    - apply (proj1 (distinct_sorted_spec (List.map industry companies))),
        in_map_iff in Hi.
      destruct Hi as [c [E Hc]]. exists c.
      apply (Permutation_in c (filteredCompanies_perm companies vs)).
      apply filter_In. split; [exact Hc |]. apply keep_spec.
      unfold kept_by_spec. auto. }
  destruct Hex as [c Hc].
  assert (Hne : filteredCompanies companies vs <> [])
    by (intros E; rewrite E in Hc; contradiction).
  pose proof (totalPages_bounds (filteredCompanies companies vs)) as Hb.
  unfold itemsPerPage in Hb.
  assert (Hlen : (0 < List.length (filteredCompanies companies vs))%nat).
  { destruct (filteredCompanies companies vs); [congruence | simpl; lia]. }
  assert (Ht : 1 <= totalPages (filteredCompanies companies vs)) by lia.
  split; [exact Hne |]. split; [exact Ht |].
  apply paginated_within. lia.
Qed.

Lemma listed_option_has_matches_witness :
  searchTerm (mkViewState "" "Santa Clara, CA" "" K_name asc 1) = ""
  /\ In "Santa Clara, CA" (App.locations getRealCompanies)
  /\ List.map id (filteredCompanies getRealCompanies
                    (mkViewState "" "Santa Clara, CA" "" K_name asc 1))
     <> [].
Proof.
  assert (H1 : searchTerm (mkViewState "" "Santa Clara, CA" "" K_name asc 1)
               = "") by reflexivity.
  assert (H2 : In "Santa Clara, CA" (App.locations getRealCompanies)).
  { vm_compute. repeat (first [left; reflexivity | right]). }
  pose proof (listed_option_has_matches getRealCompanies
                (mkViewState "" "Santa Clara, CA" "" K_name asc 1)
                H1 (or_introl (conj H2 eq_refl))) as [Hne _].
  split; [exact H1 |]. split; [exact H2 |].
  intros E. apply map_eq_nil in E. exact (Hne E).
Defined.

(** ** Flipping the direction *)

Section UniqueSorted.
Context {A : Type}.
Variable lt : A -> A -> Prop.
Hypothesis lt_asym : forall a b, lt a b -> lt b a -> False.

Lemma StronglySorted_snoc (l : list A) (x : A) :
  StronglySorted lt l -> Forall (fun a => lt a x) l ->
  StronglySorted lt (l ++ [x]).
Proof.
  induction 1 as [|y l Hs IH Hall]; intros Hx; simpl.
  - repeat constructor.
  - inversion Hx as [|? ? Hyx Hlx]; subst. constructor; [now apply IH |].
    apply Forall_app. split; [exact Hall | now repeat constructor].
Qed.

Lemma sorted_perm_unique (l1 l2 : list A) :
  StronglySorted lt l1 -> StronglySorted lt l2 -> Permutation l1 l2 ->
  l1 = l2.
Proof.
  intros H1. revert l2. induction H1 as [|x l1 Hs1 IH Hall1]; intros l2 H2 P.
  - now apply Permutation_nil in P.
  - destruct H2 as [|y l2 Hs2 Hall2].
    + apply Permutation_sym, Permutation_nil in P. discriminate.
    + assert (Exy : x = y).
      { assert (Hx : In x (y :: l2))
          by (apply (Permutation_in x P); now left).
        assert (Hy : In y (x :: l1))
          by (apply (Permutation_in y (Permutation_sym P)); now left).
        destruct Hx as [Hx | Hx]; [now symmetry |].
        destruct Hy as [Hy | Hy]; [exact Hy |].
        rewrite Forall_forall in Hall1, Hall2.
        exfalso. exact (lt_asym x y (Hall1 y Hy) (Hall2 x Hx)). }
      subst y. f_equal. apply IH; [exact Hs2 |].
      now apply Permutation_cons_inv in P.
Qed.
End UniqueSorted.

Lemma StronglySorted_rev {A : Type} (R : A -> A -> Prop) (l : list A) :
  StronglySorted R l -> StronglySorted (fun a b => R b a) (rev l).
Proof.
  induction 1 as [|x l Hs IH Hall]; simpl; [constructor |].
  apply StronglySorted_snoc; [exact IH |].
  apply Forall_forall. intros a Ha. apply in_rev in Ha.
  rewrite Forall_forall in Hall. now apply Hall.
Qed.

Lemma StronglySorted_weaken {A : Type} (R S : A -> A -> Prop) (l : list A) :
  (forall a b, In a l -> In b l -> R a b -> S a b) ->
  StronglySorted R l -> StronglySorted S l.
Proof.
  intros H Hs. induction Hs as [|x l Hs IH Hall]; constructor.
  - apply IH. intros a b Ha Hb. apply H; now right.
  - rewrite Forall_forall in *. intros y Hy.
    apply H; [now left | now right | now apply Hall].
Qed.

Lemma strictly_sorted_by_key (k : SortKey) (l : list Company) :
  distinct_keys k l ->
  StronglySorted (fun a b => compare_key k a b <> Gt) l ->
  StronglySorted (fun a b => compare_key k a b = Lt) l.
Proof.
  intros [Hnd Hinj] Hs. induction Hs as [|x l Hs IH Hall]; constructor.
  - apply IH; [now inversion Hnd |].
    intros a b Ha Hb. apply Hinj; now right.
  - rewrite Forall_forall in *. intros y Hy.
    destruct (compare_key k x y) eqn:C; [| reflexivity |].
    + apply Hinj in C; [| now left | now right]. subst y.
      inversion Hnd as [|? ? Hnot _]. contradiction.
    + exfalso. now apply (Hall y Hy).
Qed.

Lemma distinct_keys_perm (k : SortKey) (l l' : list Company) :
  Permutation l l' -> distinct_keys k l -> distinct_keys k l'.
Proof.
  intros P [Hnd Hinj]. split; [eapply Permutation_NoDup; eassumption |].
  intros a b Ha Hb. apply Hinj; eapply Permutation_in;
    try (apply Permutation_sym; exact P); assumption.
Qed.

Lemma ascending_is_reverse_of_descending (k : SortKey) (l : list Company) :
  distinct_keys k l ->
  JS.sort (sort_cmp k asc) l = rev (JS.sort (sort_cmp k desc) l).
Proof.
  intros Hd.
  pose proof (sort_perm (sort_cmp k asc) l) as Pa.
  pose proof (sort_perm (sort_cmp k desc) l) as Pd.
  apply (sorted_perm_unique (fun a b => compare_key k a b = Lt)).
  - intros a b Hab Hba. rewrite compare_key_antisym, Hba in Hab. discriminate.
  - apply strictly_sorted_by_key; [eapply distinct_keys_perm; eassumption |].
    apply Sorted_StronglySorted.
    + intros x y z. apply (respects_trans k asc).
    + apply (sort_sorted (sort_cmp k asc)
               (fun a b => respects asc (compare_key k a b)));
        [apply sort_cmp_below | apply sort_cmp_above].
  - apply strictly_sorted_by_key.
    + eapply distinct_keys_perm; [| exact Hd].
      rewrite <- (Permutation_rev (JS.sort (sort_cmp k desc) l)). exact Pd.
    + eapply StronglySorted_weaken;
        [| apply StronglySorted_rev, Sorted_StronglySorted;
           [| apply (sort_sorted (sort_cmp k desc)
                       (fun a b => respects desc (compare_key k a b)));
              [apply sort_cmp_below | apply sort_cmp_above]]].
      * intros a b _ _ H. simpl in H. rewrite compare_key_antisym.
        destruct (compare_key k b a); simpl; congruence.
      * intros x y z. apply (respects_trans k desc).
  - rewrite <- (Permutation_rev (JS.sort (sort_cmp k desc) l)).
    now rewrite <- Pa, <- Pd.
Qed.

(** When no two matching records tie on the sort column, a click on that
    column's header turns the list of rows upside down. *)
Theorem flipped_sort_is_reverse
        (companies : list Company) (vs : ViewState)
        (Hdistinct : distinct_keys (sortBy vs) (filtered companies vs)) :
  filteredCompanies companies (handleSort (sortBy vs) vs)
  = rev (filteredCompanies companies vs)
  /\ filteredCompanies companies (with_order (flip (sortOrder vs)) vs)
     = rev (filteredCompanies companies vs).
Proof.
  assert (H : filteredCompanies companies
                (with_order (flip (sortOrder vs)) vs)
              = rev (filteredCompanies companies vs)).
  { unfold filteredCompanies. simpl.
    change (filtered companies (with_order (flip (sortOrder vs)) vs))
      with (filtered companies vs).
    pose proof (ascending_is_reverse_of_descending _ _ Hdistinct) as E.
    destruct (sortOrder vs); simpl.
    - rewrite E. now rewrite rev_involutive.
    - exact E. }
  split; [| exact H].
  unfold handleSort. rewrite SortKey_eqb_refl. exact H.
Qed.

Lemma flipped_sort_is_reverse_witness :
  distinct_keys (sortBy example_view) (filtered [Zenith; Acme] example_view)
  /\ filteredCompanies [Zenith; Acme] (handleSort K_employees example_view)
     = [Zenith; Acme]
  /\ filteredCompanies [Zenith; Acme] example_view = [Acme; Zenith].
Proof.
  assert (H : distinct_keys (sortBy example_view)
                            (filtered [Zenith; Acme] example_view)).
  { split.
    - repeat constructor; simpl; intuition discriminate.
    - intros a b [<- | [<- | []]] [<- | [<- | []]]; simpl; intros E;
        try reflexivity; discriminate E. }
  pose proof (flipped_sort_is_reverse [Zenith; Acme] example_view H)
    as [Hflip _].
  split; [exact H |]. split; [| reflexivity].
  etransitivity; [exact Hflip | reflexivity].
Defined.

(** ** Loading and refreshing *)

(** A reload does not touch the page number.  When the list that comes
    back has fewer pages than the page the user is on, the directory shows
    no row at all, whatever the number of records that match. *)
Theorem reload_keeps_page (st : App.State) (data : list Company)
        (Hshort : totalPages (filteredCompanies data (App.view st))
                  < currentPage (App.view st)) :
  App.view (App.fetchCompanies (App.Body true data) st) = App.view st
  /\ App.companies (App.fetchCompanies (App.Body true data) st) = data
  /\ App.render (App.fetchCompanies (App.Body true data) st)
     = App.Directory [] 0
         (List.length (filteredCompanies data (App.view st)))
         (1 <? totalPages (filteredCompanies data (App.view st)))
         (Nat.eqb (List.length (filteredCompanies data (App.view st))) 0).
Proof.
  split; [reflexivity |]. split; [reflexivity |].
  unfold App.render, App.fetchCompanies. simpl.
  now rewrite (paginated_beyond _ _ Hshort).
Qed.

Lemma reload_keeps_page_witness :
  totalPages (filteredCompanies (firstn 7 getRealCompanies)
                (mkViewState "" "" "" K_name asc 4)) < 4
  /\ App.render
       (App.fetchCompanies (App.Body true (firstn 7 getRealCompanies))
          (App.mkState getRealCompanies false None
             (mkViewState "" "" "" K_name asc 4) App.table false))
     = App.Directory [] 0 7 true false.
Proof.
  assert (H : totalPages (filteredCompanies (firstn 7 getRealCompanies)
                (App.view (App.mkState getRealCompanies false None
                             (mkViewState "" "" "" K_name asc 4)
                             App.table false)))
              < currentPage
                  (App.view (App.mkState getRealCompanies false None
                               (mkViewState "" "" "" K_name asc 4)
                               App.table false))) by reflexivity.
  pose proof (reload_keeps_page _ (firstn 7 getRealCompanies) H)
    as [_ [_ Hr]].
  split; [exact H |]. rewrite Hr. reflexivity.
Defined.

(** A load that fails, by a rejected request, a status that is not ok or a
    body whose [success] is false, keeps the list it had and shows the
    error screen with the fixed message; a load that succeeds clears an
    earlier error.  Either way the loading screen is gone and the search,
    filters, sort and page are as they were. *)
Theorem load_outcomes (o : App.FetchOutcome) (st : App.State)
        (data : list Company) :
  App.loading (App.fetchCompanies o st) = false
  /\ App.view (App.fetchCompanies o st) = App.view st
  /\ (App.companies (App.fetchCompanies App.Rejected st) = App.companies st
      /\ App.companies (App.fetchCompanies App.NotOk st) = App.companies st
      /\ App.companies (App.fetchCompanies (App.Body false data) st)
         = App.companies st)
  /\ (App.render (App.fetchCompanies App.Rejected st)
      = App.ErrorScreen App.load_error
      /\ App.render (App.fetchCompanies App.NotOk st)
         = App.ErrorScreen App.load_error
      /\ App.render (App.fetchCompanies (App.Body false data) st)
         = App.ErrorScreen App.load_error)
  /\ App.error (App.fetchCompanies (App.Body true data) st) = None
  /\ App.render (App.fetchCompanies (App.Body true data) st)
     = App.render (App.mkState data false None (App.view st)
                               (App.viewMode st) (App.refreshing st)).
Proof.
  split; [reflexivity |].
  split; [destruct o as [| | [] d]; reflexivity |].
  repeat split.
Qed.

(** The Refresh button.  When its POST gets any response at all, error
    statuses included, the screen afterwards is the screen of a plain
    reload; when the POST is rejected the list is not reloaded and the
    screen is the one before, with no error shown.  The button is enabled
    again in both cases. *)
Theorem refresh_outcomes (o : App.FetchOutcome) (st : App.State) (b : bool) :
  App.render (App.handleRefresh true o st)
  = App.render (App.fetchCompanies o st)
  /\ App.render (App.handleRefresh false o st) = App.render st
  /\ App.companies (App.handleRefresh false o st) = App.companies st
  /\ App.refreshing (App.handleRefresh b o st) = false
  /\ App.view (App.handleRefresh b o st) = App.view st.
Proof.
  split; [destruct o as [| | [] d]; reflexivity |].
  split; [reflexivity |]. split; [reflexivity |]. split; [reflexivity |].
  destruct b; [destruct o as [| | [] d] |]; reflexivity.
Qed.

(** * Further properties of the cache service *)

(** ** What the registry's entries are mapped to *)

Lemma mapEntries_cons (env : Env) (index : nat) (company : SecEntry)
      (rest : list SecEntry) (w : World) :
  mapEntries index (company :: rest) env w
  = match mapEntries (S index) rest env
            (mkWorld (cachedCompanies w) (lastFetchTime w) (clock w)
                     (requests w) (S (S (draws w)))) with
    | (Returns cs, w') =>
        (Returns
           (mkCompany (Z.of_nat index + 1) (title company) "United States"
              (nth (index mod 5) industries "")
              (Qfloor (random_draw env (draws w) * inject_Z 5000) + 100)
              (Qfloor (random_draw env (S (draws w)) * inject_Z (2020 - 1950)
                       + inject_Z 1950))
              (sec_ticker company) :: cs), w')
    | (Throws e, w') => (Throws e, w')
    end.
Proof. reflexivity. Qed.

Lemma employees_draw_bounds (r : Q) :
  (0 <= r)%Q -> (r < 1)%Q ->
  100 <= Qfloor (r * inject_Z 5000) + 100 <= 5100.
Proof.
  intros H0 H1.
  assert (Hlo : (inject_Z 0 <= r * inject_Z 5000)%Q).
  { change (inject_Z 0) with 0%Q.
    apply Qmult_le_0_compat; [exact H0 | discriminate]. }
  assert (Hhi : (r * inject_Z 5000 <= inject_Z 5000)%Q).
  { rewrite <- (Qmult_1_l (inject_Z 5000)) at 2.
    apply Qmult_le_compat_r; [now apply Qlt_le_weak | discriminate]. }
  apply Qfloor_resp_le in Hlo, Hhi. rewrite Qfloor_Z in Hlo, Hhi. lia.
Qed.

Lemma founded_draw_bounds (r : Q) :
  (0 <= r)%Q -> (r < 1)%Q ->
  1950 <= Qfloor (r * inject_Z (2020 - 1950) + inject_Z 1950) <= 2020.
Proof.
  intros H0 H1.
  assert (Hlo : (inject_Z 1950
                 <= r * inject_Z (2020 - 1950) + inject_Z 1950)%Q).
  { rewrite <- (Qplus_0_l (inject_Z 1950)) at 1.
    apply Qplus_le_compat; [| apply Qle_refl].
    apply Qmult_le_0_compat; [exact H0 | discriminate]. }
  assert (Hhi : (r * inject_Z (2020 - 1950) + inject_Z 1950
                 <= inject_Z 2020)%Q).
  { setoid_replace (inject_Z 2020)
      with (1 * inject_Z (2020 - 1950) + inject_Z 1950)%Q by reflexivity.
    apply Qplus_le_compat; [| apply Qle_refl].
    apply Qmult_le_compat_r; [now apply Qlt_le_weak | discriminate]. }
  apply Qfloor_resp_le in Hlo, Hhi. rewrite Qfloor_Z in Hlo, Hhi. lia.
Qed.

Lemma mapEntries_shape (env : Env) (secData : list SecEntry) :
  forall (index : nat) (w : World),
  exists cs w',
    mapEntries index secData env w = (Returns cs, w')
    /\ mapped_all index secData cs
    /\ ((forall k, (0 <= random_draw env k)%Q /\ (random_draw env k < 1)%Q)
        -> Forall plausible_filler cs).
Proof.
  induction secData as [|company rest IH]; intros index w.
  - exists [], w. repeat split. constructor.
  - rewrite mapEntries_cons.
    destruct (IH (S index)
                 (mkWorld (cachedCompanies w) (lastFetchTime w) (clock w)
                          (requests w) (S (S (draws w)))))
      as [cs [w' [Hrun [Hall Hfill]]]].
    rewrite Hrun. eexists _, w'. split; [reflexivity |]. split.
    + split; [| exact Hall]. repeat split.
    + intros Hrand. constructor; [| now apply Hfill].
      split; cbn [employees founded].
      * apply employees_draw_bounds; apply Hrand.
      * apply founded_draw_bounds; apply Hrand.
Qed.

Lemma mapped_all_length (secData : list SecEntry) :
  forall index cs, mapped_all index secData cs ->
                   List.length cs = List.length secData.
Proof.
  induction secData as [|e rest IH]; intros index [|c cs] H; simpl in *;
    try contradiction; try reflexivity.
  f_equal. apply (IH (S index)). tauto.
Qed.



(** ** Every route, case by case *)

(** A fetch returns between one and twenty records. *)
Lemma fetchCompanies_size (env : Env) (w : World) :
  exists l w',
    fetchCompanies env w = (Returns l, w')
    /\ (1 <= List.length l <= 20)%nat.
Proof.
  unfold fetchCompanies, fetchFromSEC, bind, try_catch, axios_get.
  destruct (axios_reply env (requests w)) as [latency [msg | data]].
  - eexists _, _. split; [reflexivity |]. simpl. lia.
  - change 20 with (Z.of_nat 20). rewrite slice_from_zero.
    destruct (mapEntries_shape env (firstn 20 data) 0
                (mkWorld (cachedCompanies w) (lastFetchTime w)
                         (clock w + latency) (S (requests w)) (draws w)))
      as [cs [w' [Hrun [Hall _]]]].
    rewrite Hrun. cbn [ret].
    pose proof (mapped_all_length _ _ _ Hall) as Hlen.
    rewrite length_firstn in Hlen.
    unfold ret. destruct (0 <? Z.of_nat (List.length cs)) eqn:E.
    + eexists _, _. split; [reflexivity |].
      apply Z.ltb_lt in E. lia.
    + eexists _, _. split; [reflexivity |]. simpl. lia.
Qed.

(** A route either answers from what the server holds, leaving the world
    as it was, or makes one fetch and caches the list the fetch returned. *)
Lemma serve_cases (r : Request) (env : Env) (w : World) :
  exists resp,
    fst (serve r env w) = Returns resp
    /\ (status resp = 200
        \/ (status resp = 404 /\ exists p, r = GetCompany p))
    /\ ((snd (serve r env w) = w
         /\ exists l, cachedCompanies w = Some l)
        \/ (exists l,
              fst (fetchCompanies env w) = Returns l
              /\ cachedCompanies (snd (serve r env w)) = Some l
              /\ requests (snd (serve r env w)) = S (requests w)
              /\ clock (snd (serve r env w))
                 = clock w + fst (axios_reply env (requests w)))).
Proof.
  destruct (fetchCompanies_runs env w) as [l [d [Hrun _]]].
  destruct r as [| p |]; simpl.
  - destruct (fresh w) eqn:Hf.
    + assert (Hc : exists l0, cachedCompanies w = Some l0).
      { unfold fresh in Hf. destruct (cachedCompanies w) as [l0 |];
          [now exists l0 | discriminate]. }
      destruct Hc as [l0 Hc].
      rewrite (get_companies_fresh env w l0 Hc Hf).
      eexists. split; [reflexivity |]. split; [now left |].
      left. split; [reflexivity | now exists l0].
    + assert (E : get_companies env w
                  = (Returns (CompaniesBody l (List.length l) "api"
                       (Some (clock w + fst (axios_reply env (requests w))))),
                     mkWorld (Some l) (Some (clock w))
                       (clock w + fst (axios_reply env (requests w)))
                       (S (requests w)) d)).
      { unfold fresh in Hf.
        unfold get_companies, try_catch, bind, Date_now,
          read_cachedCompanies, read_lastFetchTime. simpl.
        destruct (cachedCompanies w) as [old |] eqn:Hc.
        - rewrite Hf, Hrun. reflexivity.
        - rewrite Hrun. reflexivity. }
      rewrite E. eexists. split; [reflexivity |]. split; [now left |].
      right. exists l. rewrite Hrun. simpl. auto.
  - destruct (cachedCompanies w) as [l0 |] eqn:Hc.
    + rewrite (get_company_cached env w p l0 Hc).
      eexists. split; [reflexivity |]. split.
      * unfold lookup_reply. destruct (List.find _ l0); simpl; eauto.
      * left. split; [reflexivity | now exists l0].
    + assert (E : get_company p env w
                  = (Returns (lookup_reply p l),
                     mkWorld (Some l) (lastFetchTime w)
                       (clock w + fst (axios_reply env (requests w)))
                       (S (requests w)) d)).
      { unfold get_company, lookup_reply, try_catch, bind,
          read_cachedCompanies.
        rewrite Hc. simpl. rewrite Hrun. simpl.
        destruct (List.find _ l); reflexivity. }
      rewrite E. eexists. split; [reflexivity |]. split.
      * unfold lookup_reply. destruct (List.find _ l); simpl; eauto.
      * right. exists l. rewrite Hrun. simpl. auto.
  - assert (E : post_refresh env w
                = (Returns (RefreshBody "Data refreshed successfully" l
                                        (List.length l)),
                   mkWorld (Some l)
                     (Some (clock w + fst (axios_reply env (requests w))))
                     (clock w + fst (axios_reply env (requests w)))
                     (S (requests w)) d)).
    { unfold post_refresh, try_catch, bind. rewrite Hrun. reflexivity. }
    rewrite E. eexists. split; [reflexivity |]. split; [now left |].
    right. exists l. rewrite Hrun. simpl. auto.
Qed.

(** No route throws and none answers 500, whatever the registry does:
    every request gets a 200, or a 404 from the lookup, and costs at most
    one request to the registry. *)
Theorem routes_never_fail (r : Request) (env : Env) (w : World) :
  exists resp,
    fst (serve r env w) = Returns resp
    /\ (status resp = 200
        \/ (status resp = 404 /\ exists p, r = GetCompany p))
    /\ (requests w <= requests (snd (serve r env w)) <= S (requests w))%nat.
Proof.
  destruct (serve_cases r env w) as [resp [Hr [Hs Hw]]].
  exists resp. split; [exact Hr |]. split; [exact Hs |].
  destruct Hw as [[-> _] | [l [_ [_ [-> _]]]]]; lia.
Qed.

Lemma fetch_result_size (env : Env) (w : World) (l : list Company) :
  fst (fetchCompanies env w) = Returns l -> (1 <= List.length l <= 20)%nat.
Proof.
  intros H. destruct (fetchCompanies_size env w) as [l' [w' [E Hlen]]].
  rewrite E in H. simpl in H. now injection H as <-.
Qed.

Lemma run_size (env : Env) (rs : list Request) :
  forall w,
    (forall l, cachedCompanies w = Some l -> (1 <= List.length l <= 20)%nat) ->
    forall l, cachedCompanies (run env rs w) = Some l ->
              (1 <= List.length l <= 20)%nat.
Proof.
  induction rs as [|r rs IH]; intros w Hw; simpl; [exact Hw |].
  apply IH. intros l Hl.
  destruct (serve_cases r env w) as [resp [_ [_ [[E _] | [l' [Hf [Hc _]]]]]]].
  - rewrite E in Hl. now apply Hw.
  - rewrite Hc in Hl. injection Hl as <-. eapply fetch_result_size, Hf.
Qed.

Lemma run_fills_cache (env : Env) (rs : list Request) :
  forall w, rs <> [] \/ cachedCompanies w <> None ->
            cachedCompanies (run env rs w) <> None.
Proof.
  induction rs as [|r rs IH]; intros w H; simpl.
  - destruct H; [congruence | assumption].
  - apply IH. right.
    destruct (serve_cases r env w) as [resp [_ [_ [[E [l Hl]] | [l [_ [Hc _]]]]]]].
    + rewrite E, Hl. discriminate.
    + rewrite Hc. discriminate.
Qed.

Lemma run_snapshot (env : Env) (now : Z) (r : Request) (rs : list Request) :
  exists l,
    cachedCompanies (run env (r :: rs) (boot now)) = Some l
    /\ (1 <= List.length l <= 20)%nat.
Proof.
  destruct (cachedCompanies (run env (r :: rs) (boot now))) as [l |] eqn:E.
  - exists l. split; [reflexivity |].
    apply (run_size env (r :: rs) (boot now)); [| exact E].
    intros l' H. discriminate.
  - exfalso. apply (run_fills_cache env (r :: rs) (boot now));
      [left; discriminate | exact E].
Qed.

(** From the first request on the server holds a snapshot, and it stays:
    whatever requests it has answered, at least one, its cache is a list of
    between one and twenty records, never [null] again and never empty. *)
Theorem snapshot_size
        (env : Env) (now : Z) (r : Request) (rs : list Request) :
  exists l,
    cachedCompanies (run env (r :: rs) (boot now)) = Some l
    /\ (1 <= List.length l <= 20)%nat
    /\ 1 <= totalPages l <= 4.
Proof.
  destruct (run_snapshot env now r rs) as [l [E Hlen]].
  exists l. split; [exact E |]. split; [exact Hlen |].
  pose proof (totalPages_bounds l) as Hb. unfold itemsPerPage in Hb. lia.
Qed.

(** ** Reading the id parameter *)

Lemma string_app_nil_r (s : string) : (s ++ "")%string = s.
Proof. induction s as [|a s IH]; simpl; [reflexivity | now rewrite IH]. Qed.

Lemma read_digits_decimal (d : Decimal.uint) (tail : string) :
  stops tail ->
  forall acc : nat,
    read_digits 10 (NilEmpty.string_of_uint d ++ tail)%string true
                (Z.of_nat acc)
    = Some (Z.of_nat (Nat.of_uint_acc d acc)).
Proof.
  intros Hstop.
  induction d as [| d IH | d IH | d IH | d IH | d IH | d IH | d IH | d IH
                  | d IH | d IH]; intros acc;
    cbn [NilEmpty.string_of_uint String.append read_digits Nat.of_uint_acc].
  1: { destruct tail as [|c rest]; [reflexivity |].
       cbn [read_digits]. simpl in Hstop. now rewrite Hstop. }
  all: match goal with
       | |- context [digit_value 10 ?c] =>
           let v := eval vm_compute in (digit_value 10 c) in
           change (digit_value 10 c) with v
       end;
       cbv iota beta; rewrite <- IH; f_equal;
       rewrite Nat.tail_mul_spec; lia.
Qed.

Lemma parseInt_digit_first (c : ascii) (r : string) (v n : Z) :
  digit_value 10 c = Some v ->
  c <> "0"%char \/ no_hex_mark r ->
  read_digits 10 r true v = Some n ->
  parseInt (String c r) = Some n.
Proof.
  intros Hc Hr Hn.
  assert (E : parseInt (String c r)
              = match read_digits 10 r true v with
                | Some m => Some (1 * m)
                | None => None
                end).
  { destruct c as [[] [] [] [] [] [] [] []]; try discriminate Hc;
      injection Hc as <-; try reflexivity.
    destruct Hr as [Hr | Hr]; [congruence |].
    destruct r as [|c2 r2]; [reflexivity |].
    destruct Hr as [Hx HX].
    destruct c2 as [[] [] [] [] [] [] [] []]; try congruence; reflexivity. }
  rewrite E, Hn. f_equal. lia.
Qed.

Lemma uint_head (d : Decimal.uint) :
  d <> Decimal.Nil ->
  exists c d' k,
    NilEmpty.string_of_uint d = String c (NilEmpty.string_of_uint d')
    /\ digit_value 10 c = Some (Z.of_nat k)
    /\ Nat.of_uint d = Nat.of_uint_acc d' k.
Proof.
  intros Hd. unfold Nat.of_uint.
  destruct d as [| d | d | d | d | d | d | d | d | d | d]; [congruence | ..].
  - now exists "0"%char, d, 0%nat.
  - now exists "1"%char, d, 1%nat.
  - now exists "2"%char, d, 2%nat.
  - now exists "3"%char, d, 3%nat.
  - now exists "4"%char, d, 4%nat.
  - now exists "5"%char, d, 5%nat.
  - now exists "6"%char, d, 6%nat.
  - now exists "7"%char, d, 7%nat.
  - now exists "8"%char, d, 8%nat.
  - now exists "9"%char, d, 9%nat.
Qed.

Lemma digit_is_no_hex_mark (c : ascii) (v : Z) :
  digit_value 10 c = Some v -> c <> "x"%char /\ c <> "X"%char.
Proof. intros H. split; intros ->; discriminate H. Qed.

Lemma parseInt_digits (d : Decimal.uint) (tail : string) :
  d <> Decimal.Nil -> stops tail -> no_hex_mark tail ->
  parseInt (NilEmpty.string_of_uint d ++ tail)%string
  = Some (Z.of_nat (Nat.of_uint d)).
Proof.
  intros Hd Hstop Hhex.
  destruct (uint_head d Hd) as [c [d' [k [Es [Hc Ev]]]]].
  rewrite Es, Ev. cbn [String.append].
  apply (parseInt_digit_first c _ (Z.of_nat k)); [exact Hc | |].
  - right. destruct d' as [| e | e | e | e | e | e | e | e | e | e];
      cbn [NilEmpty.string_of_uint String.append];
      [exact Hhex | ..]; split; discriminate.
  - now apply read_digits_decimal.
Qed.

Lemma to_uint_nonnil (n : nat) : Nat.to_uint n <> Decimal.Nil.
Proof.
  rewrite <- (Unsigned.of_to n) at 1. rewrite Unsigned.to_of.
  unfold Decimal.unorm. destruct (Decimal.nzhead (Nat.to_uint n)); discriminate.
Qed.

Lemma parseInt_toString (n : nat) (tail : string) :
  stops tail -> no_hex_mark tail ->
  parseInt (JS.toString n ++ tail)%string = Some (Z.of_nat n).
Proof.
  intros Hs Hh. unfold JS.toString.
  rewrite parseInt_digits; [| apply to_uint_nonnil | exact Hs | exact Hh].
  now rewrite Unsigned.of_to.
Qed.

(** [parseInt] reads back the decimal digits of a number, leading zeros
    or not: the decimal form of [n] parses to [n], and so does any string
    of decimal digits whose value is [n]. *)
Theorem parseInt_reads_decimal (n : nat) (d : Decimal.uint)
        (Hdigits : d <> Decimal.Nil) :
  parseInt (JS.toString n) = Some (Z.of_nat n)
  /\ parseInt (NilEmpty.string_of_uint d) = Some (Z.of_nat (Nat.of_uint d)).
Proof.
  split.
  - rewrite <- (string_app_nil_r (JS.toString n)).
    now apply parseInt_toString.
  - rewrite <- (string_app_nil_r (NilEmpty.string_of_uint d)).
    now apply parseInt_digits.
Qed.

Lemma parseInt_reads_decimal_witness :
  Decimal.D0 (Decimal.D0 (Decimal.D7 Decimal.Nil)) <> Decimal.Nil
  /\ parseInt "20" = Some 20
  /\ parseInt "007" = Some 7.
Proof.
  assert (H : Decimal.D0 (Decimal.D0 (Decimal.D7 Decimal.Nil)) <> Decimal.Nil)
    by discriminate.
  pose proof (parseInt_reads_decimal 20 _ H) as [H1 H2].
  split; [exact H |]. split; [exact H1 | exact H2].
Defined.

(** Whatever follows the digits is ignored, provided it starts with
    neither a digit nor the hexadecimal mark: [3abc] parses like [3]. *)
Theorem parseInt_ignores_suffix (n : nat) (c : ascii) (rest : string)
        (Hc : digit_value 10 c = None)
        (Hx : c <> "x"%char) (HX : c <> "X"%char) :
  parseInt (JS.toString n ++ String c rest)%string = Some (Z.of_nat n)
  /\ parseInt (JS.toString n ++ String c rest)%string
     = parseInt (JS.toString n).
Proof.
  assert (H : parseInt (JS.toString n ++ String c rest)%string
              = Some (Z.of_nat n))
    by (apply parseInt_toString; [exact Hc | split; assumption]).
  split; [exact H |]. rewrite H.
  rewrite <- (string_app_nil_r (JS.toString n)) at 1.
  symmetry. now apply parseInt_toString.
Qed.

Lemma parseInt_ignores_suffix_witness :
  digit_value 10 "a" = None
  /\ "a"%char <> "x"%char /\ "a"%char <> "X"%char
  /\ parseInt "3abc" = Some 3.
Proof.
  assert (H1 : digit_value 10 "a" = None) by reflexivity.
  assert (H2 : "a"%char <> "x"%char) by discriminate.
  assert (H3 : "a"%char <> "X"%char) by discriminate.
  pose proof (parseInt_ignores_suffix 3 "a" "bc" H1 H2 H3) as [H _].
  split; [exact H1 |]. split; [exact H2 |]. split; [exact H3 | exact H].
Defined.

(** ** Looking a record up *)

Lemma unique_ids_inj (l : list Company) (a b : Company) :
  unique_ids l -> In a l -> In b l -> id a = id b -> a = b.
Proof.
  unfold unique_ids. induction l as [|x l IH]; intros Hnd Ha Hb E;
    [contradiction |].
  simpl in Hnd. inversion Hnd as [|? ? Hnot Hnd']; subst.
  destruct Ha as [-> | Ha], Hb as [-> | Hb].
  - reflexivity.
  - exfalso. apply Hnot. rewrite E. now apply in_map.
  - exfalso. apply Hnot. rewrite <- E. now apply in_map.
  - now apply IH.
Qed.

(** A record of the cached snapshot is what the lookup answers, with a
    200, to any parameter that parses to its id, the decimal form of the id
    among them; the lookup then leaves the world untouched and asks the
    registry nothing. *)
Theorem lookup_finds_record
        (env : Env) (w : World) (l : list Company) (c : Company)
        (id_param : string)
        (Hcache : cachedCompanies w = Some l)
        (Hunique : unique_ids l)
        (Hin : In c l)
        (Hparam : parseInt id_param = Some (id c)) :
  get_company id_param env w = (Returns (CompanyBody c), w)
  /\ status (CompanyBody c) = 200
  /\ (0 <= id c ->
      get_company (JS.toString (Z.to_nat (id c))) env w
      = (Returns (CompanyBody c), w)).
Proof.
  assert (H : forall p, parseInt p = Some (id c) ->
                        get_company p env w = (Returns (CompanyBody c), w)).
  { intros p Hp. rewrite (get_company_cached env w p l Hcache).
    unfold lookup_reply. rewrite Hp.
    destruct (List.find (fun c0 => strict_eq (id c0) (Some (id c))) l)
      as [c' |] eqn:Hfind.
    - apply find_some in Hfind. destruct Hfind as [Hin' E].
      simpl in E. apply Z.eqb_eq in E.
      now rewrite (unique_ids_inj l c' c Hunique Hin' Hin E).
    - exfalso. apply (find_none _ _ Hfind c) in Hin.
      simpl in Hin. now rewrite Z.eqb_refl in Hin. }
  split; [now apply H |]. split; [reflexivity |].
  intros Hpos. apply H.
  rewrite <- (string_app_nil_r (JS.toString (Z.to_nat (id c)))).
  rewrite parseInt_toString; [f_equal; lia | exact I | exact I].
Qed.

Lemma lookup_finds_record_witness :
  cachedCompanies warm_world = Some getRealCompanies
  /\ unique_ids getRealCompanies
  /\ In (mkCompany 3 "Amazon.com Inc." "Seattle, WA" "Retail" 1541000 1994
                   "AMZN") getRealCompanies
  /\ parseInt "3" = Some 3
  /\ get_company "3" registry_down warm_world
     = (Returns (CompanyBody (mkCompany 3 "Amazon.com Inc." "Seattle, WA"
                                        "Retail" 1541000 1994 "AMZN")),
        warm_world).
Proof.
  assert (H1 : cachedCompanies warm_world = Some getRealCompanies)
    by reflexivity.
  assert (H2 : unique_ids getRealCompanies)
    by exact getRealCompanies_unique.
  assert (H3 : In (mkCompany 3 "Amazon.com Inc." "Seattle, WA" "Retail"
                             1541000 1994 "AMZN") getRealCompanies)
    by (simpl; tauto).
  assert (H4 : parseInt "3"
               = Some (id (mkCompany 3 "Amazon.com Inc." "Seattle, WA"
                                     "Retail" 1541000 1994 "AMZN")))
    by reflexivity.
  pose proof (lookup_finds_record registry_down warm_world getRealCompanies
                _ "3" H1 H2 H3 H4) as [H _].
  split; [exact H1 |]. split; [exact H2 |]. split; [exact H3 |].
  split; [exact H4 | exact H].
Defined.

(** ** The freshness window *)

Lemma get_companies_by_freshness (env : Env) (w : World) :
  exists resp,
    fst (get_companies env w) = Returns resp
    /\ source_of resp = Some (if fresh w then "cache" else "api")
    /\ requests (snd (get_companies env w))
       = (if fresh w then requests w else S (requests w)).
Proof.
  destruct (fresh w) eqn:Hf.
  - assert (Hc : exists l, cachedCompanies w = Some l).
    { unfold fresh in Hf. destruct (cachedCompanies w) as [l |];
        [now exists l | discriminate]. }
    destruct Hc as [l Hc]. rewrite (get_companies_fresh env w l Hc Hf).
    eexists. repeat split.
  - destruct (get_companies_stale env w Hf) as [l [d [Hrun _]]].
    rewrite Hrun. eexists. repeat split.
Qed.

(** After a manual refresh the list is served from the cache, with no
    request to the registry, to every read that comes less than an hour
    after the refresh was over, and fetched again from the hour on: the
    window of [POST /api/companies/refresh] opens when its fetch ends. *)
Theorem read_after_refresh
        (env : Env) (w : World) (d : Z)
        (Hstamp : clock w + fst (axios_reply env (requests w)) <> 0) :
  exists resp,
    fst (get_companies env (tick d (snd (post_refresh env w)))) = Returns resp
    /\ source_of resp
       = Some (if d <? CACHE_DURATION then "cache" else "api")
    /\ requests (snd (get_companies env (tick d (snd (post_refresh env w)))))
       = (if d <? CACHE_DURATION then S (requests w)
          else S (S (requests w))).
Proof.
  destruct (post_refresh_runs env w) as [l [d0 [Hrun _]]].
  destruct (get_companies_by_freshness env (tick d (snd (post_refresh env w))))
    as [resp [Hr [Hs Hq]]].
  exists resp. split; [exact Hr |].
  assert (Hf : fresh (tick d (snd (post_refresh env w)))
               = (d <? CACHE_DURATION)).
  { rewrite Hrun. unfold fresh, tick. simpl.
    apply Z.eqb_neq in Hstamp. rewrite Hstamp. simpl.
    f_equal. lia. }
  rewrite Hf in Hs, Hq. split; [exact Hs |].
  rewrite Hq, Hrun. reflexivity.
Qed.

Lemma read_after_refresh_witness :
  clock (boot 1000) + fst (axios_reply registry_down (requests (boot 1000)))
  <> 0
  /\ exists resp,
       fst (get_companies registry_down
              (tick 3599999 (snd (post_refresh registry_down (boot 1000)))))
       = Returns resp
       /\ source_of resp = Some "cache".
Proof.
  assert (H : clock (boot 1000)
              + fst (axios_reply registry_down (requests (boot 1000))) <> 0)
    by discriminate.
  destruct (read_after_refresh registry_down (boot 1000) 3599999 H)
    as [resp [Hr [Hs _]]].
  split; [exact H |]. exists resp. split; [exact Hr | exact Hs].
Defined.

(** After a read that had to fetch, the window is counted from the moment
    that read came in: a later read, [d] milliseconds after the fetch was
    over, is served from the cache exactly when the time the fetch took
    plus [d] is under an hour. *)
Theorem read_after_read
        (env : Env) (w : World) (d : Z)
        (Hstale : fresh w = false)
        (Hstamp : clock w <> 0) :
  exists resp,
    fst (get_companies env (tick d (snd (get_companies env w))))
    = Returns resp
    /\ source_of resp
       = Some (if fst (axios_reply env (requests w)) + d <? CACHE_DURATION
               then "cache" else "api")
    /\ requests (snd (get_companies env (tick d (snd (get_companies env w)))))
       = (if fst (axios_reply env (requests w)) + d <? CACHE_DURATION
          then S (requests w) else S (S (requests w))).
Proof.
  destruct (get_companies_stale env w Hstale) as [l [d0 [Hrun _]]].
  destruct (get_companies_by_freshness env
              (tick d (snd (get_companies env w))))
    as [resp [Hr [Hs Hq]]].
  exists resp. split; [exact Hr |].
  assert (Hf : fresh (tick d (snd (get_companies env w)))
               = (fst (axios_reply env (requests w)) + d <? CACHE_DURATION)).
  { rewrite Hrun. unfold fresh, tick. simpl.
    apply Z.eqb_neq in Hstamp. rewrite Hstamp. simpl.
    f_equal. lia. }
  rewrite Hf in Hs, Hq. split; [exact Hs |].
  rewrite Hq, Hrun. reflexivity.
Qed.

Lemma read_after_read_witness :
  fresh (boot 1000) = false
  /\ clock (boot 1000) <> 0
  /\ exists resp,
       fst (get_companies registry_down
              (tick 3595000 (snd (get_companies registry_down (boot 1000)))))
       = Returns resp
       /\ source_of resp = Some "api".
Proof.
  assert (H1 : fresh (boot 1000) = false) by reflexivity.
  assert (H2 : clock (boot 1000) <> 0) by discriminate.
  destruct (read_after_read registry_down (boot 1000) 3595000 H1 H2)
    as [resp [Hr [Hs _]]].
  split; [exact H1 |]. split; [exact H2 |].
  exists resp. split; [exact Hr | exact Hs].
Defined.

(** A lookup on a server that holds nothing fetches and caches the list
    but records no fetch time, so the next read of the list, however soon,
    fetches again. *)
Theorem lookup_records_no_fetch_time
        (env : Env) (w : World) (id_param : string) (d : Z)
        (Hcold : cachedCompanies w = None)
        (Hnever : lastFetchTime w = None) :
  (exists l, cachedCompanies (snd (get_company id_param env w)) = Some l)
  /\ lastFetchTime (snd (get_company id_param env w)) = None
  /\ requests (snd (get_company id_param env w)) = S (requests w)
  /\ exists resp,
       fst (get_companies env (tick d (snd (get_company id_param env w))))
       = Returns resp
       /\ source_of resp = Some "api"
       /\ requests
            (snd (get_companies env
                    (tick d (snd (get_company id_param env w)))))
          = S (S (requests w)).
Proof.
  destruct (get_company_uncached env w id_param Hcold) as [l [d0 [Hrun _]]].
  rewrite Hrun. simpl.
  split; [now exists l |]. split; [exact Hnever |]. split; [reflexivity |].
  destruct (get_companies_by_freshness env
              (tick d (mkWorld (Some l) (lastFetchTime w)
                         (clock w + fst (axios_reply env (requests w)))
                         (S (requests w)) d0)))
    as [resp [Hr [Hs Hq]]].
  assert (Hf : fresh (tick d (mkWorld (Some l) (lastFetchTime w)
                         (clock w + fst (axios_reply env (requests w)))
                         (S (requests w)) d0)) = false).
  { unfold fresh, tick. simpl. now rewrite Hnever. }
  rewrite Hf in Hs, Hq. exists resp. auto.
Qed.

Lemma lookup_records_no_fetch_time_witness :
  cachedCompanies (boot 1000) = None
  /\ lastFetchTime (boot 1000) = None
  /\ lastFetchTime (snd (get_company "3" registry_down (boot 1000))) = None.
Proof.
  pose proof (lookup_records_no_fetch_time registry_down (boot 1000) "3" 0
                eq_refl eq_refl) as [_ [H _]].
  split; [reflexivity |]. split; [reflexivity | exact H].
Defined.

(** ** The health route *)

Lemma toString_starts_with_digit (n : nat) (suffix : string) :
  exists c rest,
    (JS.toString n ++ suffix)%string = String c rest
    /\ exists v, digit_value 10 c = Some v.
Proof.
  unfold JS.toString.
  destruct (uint_head (Nat.to_uint n) (to_uint_nonnil n))
    as [c [d' [k [Es [Hc _]]]]].
  rewrite Es. simpl. eauto.
Qed.

(** The health route changes nothing and asks the registry nothing.  It
    reports [empty] exactly as long as the server has answered no request
    of the other three routes; from then on it reports the size of the
    snapshot, in decimal, followed by " companies cached". *)
Theorem health_reports_cache
        (env : Env) (now : Z) (rs : list Request) (w : World) :
  snd (get_health env w) = w
  /\ (health_status env (run env rs (boot now)) = "empty" <-> rs = [])
  /\ (rs = []
      \/ exists l,
           cachedCompanies (run env rs (boot now)) = Some l
           /\ health_status env (run env rs (boot now))
              = (JS.toString (List.length l) ++ " companies cached")%string).
Proof.
  split; [reflexivity |].
  assert (Hst : forall w0 l, cachedCompanies w0 = Some l ->
                  health_status env w0
                  = (JS.toString (List.length l)
                     ++ " companies cached")%string).
  { intros w0 l H. unfold health_status, get_health, bind, Date_now,
      read_cachedCompanies, ret. simpl. now rewrite H. }
  destruct rs as [|r rs].
  - split; [| now left]. split; [reflexivity | reflexivity].
  - destruct (run_snapshot env now r rs) as [l [Hl _]].
    split.
    + split; [| discriminate]. rewrite (Hst _ l Hl). intros E.
      destruct (toString_starts_with_digit (List.length l)
                  " companies cached") as [c [rest [Ec [v Hv]]]].
      rewrite Ec in E. injection E as -> _. discriminate Hv.
    + right. exists l. split; [exact Hl | now apply Hst].
Qed.

(** ** More theorems at work on sample inputs *)

Lemma next_previous_round_trip_witness :
  1 < currentPage (mkViewState "" "" "" K_name asc 2) < 4
  /\ onPrevious (onNext 4 (mkViewState "" "" "" K_name asc 2))
     = mkViewState "" "" "" K_name asc 2.
Proof.
  assert (H : 1 < currentPage (mkViewState "" "" "" K_name asc 2) < 4)
    by (simpl; lia).
  pose proof (next_previous_round_trip 4 (mkViewState "" "" "" K_name asc 2) H)
    as [Hr _].
  split; [exact H | exact Hr].
Defined.

(** ** A parameter with something after the digits *)

Lemma get_company_by_parsed (env : Env) (w : World) (p q : string) :
  parseInt p = parseInt q -> get_company p env w = get_company q env w.
Proof. intros H. unfold get_company. now rewrite H. Qed.

(** The lookup reads the digits at the front of the parameter and ignores
    what follows them, provided that starts with neither a digit nor the
    hexadecimal mark: [/api/companies/3abc] is answered as
    [/api/companies/3] is, in every world. *)
Theorem lookup_ignores_suffix
        (env : Env) (w : World) (n : nat) (c : ascii) (rest : string)
        (Hc : digit_value 10 c = None)
        (Hx : c <> "x"%char) (HX : c <> "X"%char) :
  get_company (JS.toString n ++ String c rest)%string env w
  = get_company (JS.toString n) env w.
Proof.
  apply get_company_by_parsed.
  rewrite (parseInt_toString n (String c rest) Hc (conj Hx HX)).
  rewrite <- (string_app_nil_r (JS.toString n)).
  symmetry. now apply parseInt_toString.
Qed.

Lemma lookup_ignores_suffix_witness :
  digit_value 10 "a" = None
  /\ "a"%char <> "x"%char /\ "a"%char <> "X"%char
  /\ get_company "3abc" registry_down warm_world
     = get_company "3" registry_down warm_world.
Proof.
  assert (H1 : digit_value 10 "a" = None) by reflexivity.
  assert (H2 : "a"%char <> "x"%char) by discriminate.
  assert (H3 : "a"%char <> "X"%char) by discriminate.
  pose proof (lookup_ignores_suffix registry_down warm_world 3 "a" "bc"
                H1 H2 H3) as H.
  split; [exact H1 |]. split; [exact H2 |]. split; [exact H3 | exact H].
Defined.
